(** * LINQscript: a shallow embedding of [src/linq.ts]

    [LINQArray<T>] extends the built-in JavaScript [Array]; every method is a
    short delegation to a host primitive ([push], [map], [filter], [find],
    [flatMap], [reduce], [some], [slice], [sort], [Set], [Map], the [Array]
    constructor).  The development therefore has three layers:

    - the values a JavaScript array can hold, with the host's equalities;
    - the host primitives, on array contents (a list of slots, a slot being
      either a value or a hole);
    - the methods of [LINQArray] and the free function [AsLinq], written in a
      state-and-exception monad over a store of arrays, so that receivers,
      fresh results and in-place mutation are told apart.

    The method [_log], which prints the receiver to the console, is left out.

    Two limits of the host enter the model as parameters (the class [Host]):
    the numbers of arguments it accepts in the two calls that the source
    writes with a spread, [new LINQArray(...arr)] and [this.push(...arr)]. *)

From Stdlib Require Import ZArith Bool Ascii String List Permutation Sorted Lia DecimalString.
From stdpp Require Import base option list strings.

Set Default Proof Using "Type".
Local Open Scope Z_scope.

(** ** Values *)

(** Primitive values.  Numbers are the integral doubles (the model is exact on
    the safe-integer range); fractions, NaN and the infinities are outside the
    model. *)
Inductive prim : Type :=
  | PUndefined
  | PNull
  | PBoolean (b : bool)
  | PNumber (n : Z)
  | PString (s : string)
  | PSymbol (id : nat).

(** A value is a primitive or an object.  An object has an identity (its
    address) and, like the [Fruit] records of the test suite, a flat record
    of primitive fields.  The library never writes to an element. *)
Inductive value : Type :=
  | VPrim (p : prim)
  | VObject (addr : nat) (fields : list (string * prim)).

Definition undefined : value := VPrim PUndefined.
Definition number (n : Z) : value := VPrim (PNumber n).
Definition str (s : string) : value := VPrim (PString s).

#[global] Instance prim_eq_dec : EqDecision prim.
Proof. solve_decision. Defined.

#[global] Instance value_eq_dec : EqDecision value.
Proof. solve_decision. Defined.

(** [item === undefined] *)
Definition is_undefined (v : value) : bool :=
  match v with
  | VPrim PUndefined => true
  | _ => false
  end.

(** SameValueZero, the equality of [Set] and of the keys of [Map]: primitives
    by value, objects by identity. *)
Definition same_value_zero (x y : value) : bool :=
  match x, y with
  | VPrim p, VPrim q => bool_decide (p = q)
  | VObject a _, VObject b _ => Nat.eqb a b
  | _, _ => false
  end.

(** Structural (deep) equality, the equality of the test suite's [toEqual]:
    primitives by value, objects by their fields, whatever their identity. *)
Definition structurally_equal (x y : value) : bool :=
  match x, y with
  | VPrim p, VPrim q => bool_decide (p = q)
  | VObject _ f, VObject _ g => bool_decide (f = g)
  | _, _ => false
  end.

(** ** Array contents *)

(** An index of an array either holds a value or is a hole (an index below
    [length] without a property, as [new Array(3)] creates three of). *)
Definition slot : Type := option value.
Definition array : Type := list slot.

(** Reading an index: a hole reads as [undefined]. *)
Definition read (s : slot) : value := default undefined s.

(** The values the array iterator yields ([...arr], [new Set(arr)]): every
    index below [length], holes read as [undefined]. *)
Definition iterate (a : array) : list value := map read a.

(** The values [map], [filter], [reduce], [some], [flatMap] and [sort] visit:
    only the indices that are present. *)
Fixpoint present (a : array) : list value :=
  match a with
  | [] => []
  | Some v :: a' => v :: present a'
  | None :: a' => present a'
  end.

Definition holes (a : array) : list slot :=
  List.filter (fun s => match s with None => true | Some _ => false end) a.

Definition dense (vs : list value) : array := map Some vs.

(** ** Exceptions *)

Inductive error : Type :=
  | InvalidOperationException
  | TypeError
  | RangeError.

Inductive outcome (A : Type) : Type :=
  | Ret (a : A)
  | Throw (e : error).
Arguments Ret {A} a.
Arguments Throw {A} e.

#[global] Instance error_eq_dec : EqDecision error.
Proof. solve_decision. Defined.

(** ** Host primitives *)

(** [arr.push(...items)] *)
Definition array_push (a : array) (items : list value) : array :=
  a ++ dense items.

(** [arr.map(f)]: the result has the length of [arr]; holes stay holes.  (The
    results need not be values of the model: [DistinctBy] maps to pairs.) *)
Definition array_map {A B : Type} (f : A -> B) (a : list (option A)) : list (option B) :=
  map (option_map f) a.

(** [arr.filter(p)] *)
Definition array_filter (p : value -> bool) (a : array) : array :=
  dense (List.filter p (present a)).

(** [arr.find(p)]: visits every index, holes as [undefined]; [undefined] when
    nothing matches. *)
Definition array_find (p : value -> bool) (a : array) : value :=
  default undefined (List.find p (iterate a)).

(** [arr.some(p)] *)
Definition array_some (p : value -> bool) (a : array) : bool :=
  existsb p (present a).

(** [arr.flatMap(f)]: one level of flattening; holes of [arr] and of the
    arrays [f] returns are skipped. *)
Definition array_flatMap (f : value -> array) (a : array) : array :=
  dense (flat_map (fun x => present (f x)) (present a)).

(** [arr.reduce(f, init)] *)
Definition array_reduce {B : Type} (f : B -> value -> B) (init : B) (a : array) : B :=
  fold_left f (present a) init.

(** The relative index of [slice]: negative indices count from the end. *)
Definition relative_index (i len : Z) : Z :=
  if i <? 0 then Z.max (len + i) 0 else Z.min i len.

(** [arr.slice(start, end)] with integral arguments. *)
Definition array_slice (start fin : Z) (a : array) : array :=
  let len := Z.of_nat (length a) in
  let k := relative_index start len in
  let final := relative_index fin len in
  let count := Z.max (final - k) 0 in
  firstn (Z.to_nat count) (skipn (Z.to_nat k) a).

(** [new LINQArray(...args)].  The class declares no constructor, so the
    arguments reach the [Array] constructor: a single argument of type number
    is a length (a [RangeError] unless it is an integer of 0 .. 2^32 - 1),
    anything else is the list of elements. *)
Definition array_construct (args : list value) : outcome array :=
  match args with
  | [VPrim (PNumber len)] =>
      if (0 <=? len) && (len <=? 4294967295)
      then Ret (replicate (Z.to_nat len) None)
      else Throw RangeError
  | _ => Ret (dense args)
  end.

(** [Set]: insertion-ordered, membership by SameValueZero. *)
Definition set_add (s : list value) (v : value) : list value :=
  if existsb (same_value_zero v) s then s else s ++ [v].

(** [[...new Set(it)]] *)
Definition new_Set (it : list value) : list value :=
  fold_left set_add it [].

(** [Map]: insertion-ordered; [set] on a key that is present overwrites the
    value in place. *)
Fixpoint map_set (m : list (value * value)) (k v : value) : list (value * value) :=
  match m with
  | [] => [(k, v)]
  | (k', v') :: m' =>
      if same_value_zero k' k then (k', v) :: m' else (k', v') :: map_set m' k v
  end.

(** [new Map(entries)]: the entries are read with the array iterator, and an
    entry that is not an object (a hole reads as [undefined]) is a
    [TypeError]. *)
Fixpoint new_Map_from (m : list (value * value)) (entries : list (option (value * value)))
  : outcome (list (value * value)) :=
  match entries with
  | [] => Ret m
  | None :: _ => Throw TypeError
  | Some (k, v) :: entries' => new_Map_from (map_set m k v) entries'
  end.

Definition new_Map (entries : list (option (value * value))) : outcome (list (value * value)) :=
  new_Map_from [] entries.

(** [[...m.values()]] *)
Definition map_values (m : list (value * value)) : list value := map snd m.

(** [arr.sort(comparator)].  The sorting algorithm is the host's and is not
    part of the repository; it is modelled by insertion: the elements enter a
    sorted prefix one by one, and the entering element moves past every
    element the comparator puts it after (a positive result), stopping at the
    first element it is not put after. *)
Section Sort.
Context {A : Type} (comparator : A -> A -> Z).

Fixpoint insert_sorted (x : A) (l : list A) : list A :=
  match l with
  | [] => [x]
  | y :: l' => if 0 <? comparator x y then y :: insert_sorted x l' else x :: l
  end.

Definition sort_with (l : list A) : list A :=
  fold_left (fun acc x => insert_sorted x acc) l [].

End Sort.

(** Whatever the comparator, [sort] compares only the present values that are
    not [undefined]; the [undefined] values follow them and the holes come
    last. *)
Definition array_sort (comparator : value -> value -> Z) (a : array) : array :=
  let vs := present a in
  dense (sort_with comparator (List.filter (fun v => negb (is_undefined v)) vs))
    ++ dense (List.filter is_undefined vs)
    ++ holes a.

(** The operator [>] on the keys of [OrderBy]: the source is generic in the key
    type [K], the model takes the operator as an interface of [K]. *)
Class Greater (K : Type) : Type := greater : K -> K -> bool.

(** Numbers compare by value. *)
#[global] Instance number_greater : Greater Z := Z.gtb.

(** Keys that [>] orders totally: [a > b] and [b > a] never both hold, and
    "not greater" is transitive.  (Numbers qualify; keys that mix [undefined]
    with numbers would not.) *)
Class TotalGreater (K : Type) `{Greater K} : Prop := {
  greater_asym : forall a b : K, greater a b = true -> greater b a = false;
  greater_negtrans : forall a b c : K,
    greater a b = false -> greater b c = false -> greater a c = false
}.

(** ** Property keys and the object [GroupBy] builds *)

(** [K extends string | number | symbol] *)
Inductive key : Type :=
  | KNumber (n : Z)
  | KString (s : string)
  | KSymbol (id : nat).

(** The keys of an object's properties: array indices (the canonical decimal
    strings of 0 .. 2^32 - 2), any other string, or a symbol. *)
Inductive property_key : Type :=
  | IndexKey (i : N)
  | NameKey (s : string)
  | SymbolKey (id : nat).

#[global] Instance property_key_eq_dec : EqDecision property_key.
Proof. solve_decision. Defined.

(** ToString on a safe integer (a number of magnitude at most 2^53 - 1),
    where it is the plain decimal spelling.  Greater numbers are spelt by the
    host with rounded digits, and from 10^21 on with an exponent; the
    statements about keys are for safe integers (see [safe_key]). *)
Definition number_to_string (n : Z) : string :=
  DecimalString.NilZero.string_of_int (Z.to_int n).

(** The array index a string spells, if it is the canonical spelling of one. *)
Definition index_of_string (s : string) : option N :=
  match DecimalString.NilZero.uint_of_string s with
  | Some u =>
      let i := N.of_uint u in
      if (i <=? 4294967294)%N
         && String.eqb (DecimalString.NilZero.string_of_uint (N.to_uint i)) s
      then Some i else None
  | None => None
  end.

(** ToPropertyKey: a number is turned into its string first, so the number 1
    and the string "1" name the same property. *)
Definition to_property_key (k : key) : property_key :=
  match k with
  | KNumber n =>
      if (0 <=? n) && (n <=? 4294967294) then IndexKey (Z.to_N n)
      else NameKey (number_to_string n)
  | KString s =>
      match index_of_string s with
      | Some i => IndexKey i
      | None => NameKey s
      end
  | KSymbol id => SymbolKey id
  end.

(** The own properties of the object, in creation order. *)
Definition object : Type := list (property_key * list value).

(** [{}] inherits from [Object.prototype]: these names are [in] every object. *)
Definition object_prototype_names : list string :=
  [ "constructor"; "__defineGetter__"; "__defineSetter__"; "hasOwnProperty";
    "__lookupGetter__"; "__lookupSetter__"; "isPrototypeOf";
    "propertyIsEnumerable"; "toString"; "valueOf"; "__proto__";
    "toLocaleString" ]%string.

Definition inherited (p : property_key) : bool :=
  match p with
  | NameKey s => existsb (String.eqb s) object_prototype_names
  | _ => false
  end.

Fixpoint own (o : object) (p : property_key) : option (list value) :=
  match o with
  | [] => None
  | (q, arr) :: o' => if bool_decide (q = p) then Some arr else own o' p
  end.

Fixpoint set_own (o : object) (p : property_key) (arr : list value) : object :=
  match o with
  | [] => []
  | (q, old) :: o' =>
      if bool_decide (q = p) then (q, arr) :: o' else (q, old) :: set_own o' p arr
  end.





(** ** The store and the monad of the methods *)

(** Arrays live in a store and are known by reference; a method receives its
    receiver [this] as a reference.  A computation transforms the store and
    either returns or throws. *)
Definition ref : Type := nat.
Definition heap : Type := list array.
Definition M (A : Type) : Type := heap -> outcome A * heap.

#[global] Instance M_ret : MRet M := fun A a h => (Ret a, h).
#[global] Instance M_bind : MBind M := fun A B f m h =>
  match m h with
  | (Ret a, h') => f a h'
  | (Throw e, h') => (Throw e, h')
  end.

Definition throw {A : Type} (e : error) : M A := fun h => (Throw e, h).
Definition lift {A : Type} (o : outcome A) : M A := fun h => (o, h).

(** Reading through a reference that denotes no array is a [TypeError], as a
    method call on [undefined] is. *)
Definition load (r : ref) : M array := fun h =>
  match h !! r with
  | Some a => (Ret a, h)
  | None => (Throw TypeError, h)
  end.

Definition store (r : ref) (a : array) : M unit := fun h => (Ret tt, <[r := a]> h).

(** A new array gets the next free reference. *)
Definition alloc (a : array) : M ref := fun h => (Ret (length h), h ++ [a]).

(** ** The limits of the host *)

(** A call written with a spread, [f(...arr)], passes every element of [arr]
    as an argument, and the host throws a [RangeError] when the arguments
    are more than its stack takes.  How many it takes depends on the engine,
    on the size of its stack and on the call; the model takes the two limits
    it needs as parameters, and of the first only supposes that the
    constructor can be called with one argument. *)
Class Host : Type := {
  (* arguments accepted by [new LINQArray(...arr)] *)
  construct_limit : nat;
  (* arguments accepted by [this.push(...arr)] *)
  push_limit : nat;
  construct_limit_positive : (1 <= construct_limit)%nat
}.

(** The arguments of [f(...arr)], for a call that takes at most [limit]
    arguments: the values the iterator of [arr] yields. *)
Definition spread (limit : nat) (arr : array) : outcome (list value) :=
  if (length arr <=? limit)%nat then Ret (iterate arr) else Throw RangeError.

(** ** The class [LINQArray] and the function [AsLinq]

    Each method takes its receiver [this] last.  Predicates and selectors are
    functions of the model: they are pure and cannot throw. *)

(** [new LINQArray<T>(...arr)] *)
Definition AsLinq {host : Host} (arr : ref) : M ref :=
  a ← load arr;
  args ← lift (spread construct_limit a);
  elements ← lift (array_construct args);
  alloc elements.

(** [this.push(item)] *)
Definition Add (item : value) (this : ref) : M unit :=
  a ← load this;
  store this (array_push a [item]).

(** [this.push(...arr)] *)
Definition AddRange {host : Host} (arr : ref) (this : ref) : M unit :=
  items ← load arr;
  args ← lift (spread push_limit items);
  a ← load this;
  store this (array_push a args).

(** The reducer of [GroupBy]:
    [if (key in groups) groups[key].push(item); else groups[key] = [item]].
    A key that is [in groups] without being an own property is a member of
    [Object.prototype], which has no [push]: the call is a [TypeError]. *)
Definition group_step (predicate : value -> key) (groups : outcome object) (item : value)
  : outcome object :=
  match groups with
  | Throw e => Throw e
  | Ret groups =>
      let key := to_property_key (predicate item) in
      match own groups key with
      | Some arr => Ret (set_own groups key (arr ++ [item]))
      | None =>
          if inherited key then Throw TypeError
          else Ret (groups ++ [(key, [item])])
      end
  end.

(** [this.reduce((groups, item) => ..., {})] *)
Definition GroupBy (predicate : value -> key) (this : ref) : M object :=
  a ← load this;
  lift (array_reduce (group_step predicate) (Ret []) a).

(** [this.map(predicate)] *)
Definition Select (predicate : value -> value) (this : ref) : M ref :=
  a ← load this;
  alloc (array_map predicate a).

(** [this.filter(predicate)] *)
Definition Where (predicate : value -> bool) (this : ref) : M ref :=
  a ← load this;
  alloc (array_filter predicate a).

(** [predicate ? this.find(predicate) : this.length ? this[0] : undefined] *)
Definition FirstOrDefault (predicate : option (value -> bool)) (this : ref) : M value :=
  a ← load this;
  mret (match predicate with
        | Some p => array_find p a
        | None =>
            match a with
            | [] => undefined
            | first :: _ => read first
            end
        end).

(** [if (item === undefined) throw new InvalidOperationException(...)] *)
Definition First (predicate : option (value -> bool)) (this : ref) : M value :=
  item ← FirstOrDefault predicate this;
  if is_undefined item then throw InvalidOperationException else mret item.

(** [this.flatMap(predicate)] *)
Definition SelectMany (predicate : value -> array) (this : ref) : M ref :=
  a ← load this;
  alloc (array_flatMap predicate a).

(** [AsLinq([...new Set(this)])] *)
Definition Distinct {host : Host} (this : ref) : M ref :=
  a ← load this;
  literal ← alloc (dense (new_Set (iterate a)));
  AsLinq literal.

(** [AsLinq([...new Map(this.map(i => [predicate(i), i])).values()])].  The
    array of pairs that [this.map] builds is not kept in the store, which
    holds arrays of values only. *)
Definition DistinctBy {host : Host} (predicate : value -> value) (this : ref) : M ref :=
  a ← load this;
  m ← lift (new_Map (array_map (fun i => (predicate i, i)) a));
  literal ← alloc (dense (map_values m));
  AsLinq literal.

(** [this.sort((a, b) => predicate(a) > predicate(b) ? 1 : -1)]; the receiver
    is sorted in place and returned. *)
Definition OrderBy {K : Type} `{Greater K} (predicate : value -> K) (this : ref) : M ref :=
  a ← load this;
  _ ← store this
        (array_sort (fun a b => if greater (predicate a) (predicate b) then 1 else -1) a);
  mret this.

(** [this.sort((a, b) => predicate(a) > predicate(b) ? -1 : 1)] *)
Definition OrderByDescending {K : Type} `{Greater K} (predicate : value -> K) (this : ref)
  : M ref :=
  a ← load this;
  _ ← store this
        (array_sort (fun a b => if greater (predicate a) (predicate b) then -1 else 1) a);
  mret this.

(** [predicate ? this.some(predicate) : this.length > 0] *)
Definition Any (predicate : option (value -> bool)) (this : ref) : M bool :=
  a ← load this;
  mret (match predicate with
        | Some p => array_some p a
        | None => 0 <? Z.of_nat (length a)
        end).

(** [this.slice(0, i)] *)
Definition Take (i : Z) (this : ref) : M ref :=
  a ← load this;
  alloc (array_slice 0 i a).

(** [this.slice(i, this.length)] *)
Definition Skip (i : Z) (this : ref) : M ref :=
  a ← load this;
  alloc (array_slice i (Z.of_nat (length a)) a).

(** [this.length] *)
Definition Count (this : ref) : M Z :=
  a ← load this;
  mret (Z.of_nat (length a)).

(** [[...this]] *)
Definition ToArray (this : ref) : M ref :=
  a ← load this;
  alloc (dense (iterate a)).

(** ** Vocabulary of the statements *)

(** The first occurrences of a list, in order: an element is kept when no
    earlier element equals it. *)
Fixpoint first_occurrences_after {A : Type} (same : A -> A -> bool)
    (earlier : list A) (l : list A) : list A :=
  match l with
  | [] => []
  | x :: l' =>
      if existsb (same x) earlier
      then first_occurrences_after same (x :: earlier) l'
      else x :: first_occurrences_after same (x :: earlier) l'
  end.

Definition first_occurrences {A : Type} (same : A -> A -> bool) (l : list A) : list A :=
  first_occurrences_after same [] l.

(** The last element of a key, and the last elements of the keys of a list,
    in the order in which the keys first occur. *)
Definition last_of_key (predicate : value -> value) (vs : list value) (key : value) : value :=
  default undefined (last (List.filter (fun y => same_value_zero key (predicate y)) vs)).

Definition last_occurrences (predicate : value -> value) (vs : list value) : list value :=
  map (last_of_key predicate vs) (first_occurrences same_value_zero (map predicate vs)).

(** The map [DistinctBy] builds from a receiver without empty slots. *)
Definition entry_of (predicate : value -> value) (i : value) : value * value :=
  (predicate i, i).

Definition build_map (predicate : value -> value) (vs : list value) : list (value * value) :=
  fold_left (fun m e => map_set m e.1 e.2) (map (entry_of predicate) vs) [].

(** The elements [First] searches, in iteration order: those that satisfy the
    predicate, or all of them when the predicate is omitted. *)
Definition matching (predicate : option (value -> bool)) (a : array) : list value :=
  match predicate with
  | Some p => List.filter p (iterate a)
  | None => iterate a
  end.

(** The argument lists the [Array] constructor reads as a length. *)
Definition lone_number (args : list value) : bool :=
  match args with
  | [VPrim (PNumber _)] => true
  | _ => false
  end.

(** A call leaves the arrays of the store unmodified when every array the
    store held before the call, the receiver among them, holds the same
    slots in the same order after it. *)
Definition unmodified {A : Type} (c : M A) (h : heap) : Prop :=
  forall (r : ref) (a : array), h !! r = Some a -> snd (c h) !! r = Some a.

(** A call returns a new sequence when the reference it returns denotes no
    array of the store before the call, and one after it. *)
Definition returns_new (c : M ref) (h : heap) : Prop :=
  forall r : ref, fst (c h) = Ret r -> h !! r = None /\ is_Some (snd (c h) !! r).

(** Both follow when the call does nothing to the store but create arrays, *)
Definition grows {A : Type} (c : M A) (h : heap) : Prop :=
  exists created : heap, snd (c h) = h ++ created.

(** and returns a reference to one of the arrays it created. *)
Definition grows_new (c : M ref) (h : heap) : Prop :=
  exists created : heap,
    snd (c h) = h ++ created /\
    forall r : ref, fst (c h) = Ret r -> (length h <= r < length h + length created)%nat.

(** The reducer of [GroupBy] when it does not throw. *)
Definition group_add (predicate : value -> key) (groups : object) (item : value) : object :=
  let key := to_property_key (predicate item) in
  match own groups key with
  | Some arr => set_own groups key (arr ++ [item])
  | None => groups ++ [(key, [item])]
  end.

(** A key selector that is defined on every value: the number itself, and 0
    for anything that is not a number ([x => x ?? 0] on a sequence of numbers
    and [undefined]). *)
Definition number_or_zero (v : value) : Z :=
  match v with
  | VPrim (PNumber n) => n
  | _ => 0
  end.

(** The key selector [x => x] on a sequence of numbers and strings. *)
Definition self_key (v : value) : key :=
  match v with
  | VPrim (PNumber n) => KNumber n
  | VPrim (PString s) => KString s
  | _ => KString "undefined"
  end.

(** The keys whose property key the model gives exactly: a number key is a
    safe integer; string and symbol keys are all covered. *)
Definition safe_key (k : key) : bool :=
  match k with
  | KNumber n => (-9007199254740991 <=? n) && (n <=? 9007199254740991)
  | KString _ => true
  | KSymbol _ => true
  end.

(** The greatest length of an array. *)
Definition max_length : Z := 4294967295.

(** A host for the examples, which takes a thousand arguments in either
    call. *)
Definition sample_host : Host :=
  {| construct_limit := 1000;
     push_limit := 1000;
     construct_limit_positive := le_n_S 0 999 (Nat.le_0_l 999) |}.

(** Sample data of the examples. *)
Definition sample_numbers : array := dense [number 3; number 1; number 2].

(** An array of more slots than the host of the examples takes arguments. *)
Definition long_array : array := replicate 1001 None.

(** What [new LINQArray(2)] creates. *)
Definition two_empty_slots : array := [None; None].

(** Two objects with the same fields: equal as structures, not the same
    object. *)
Definition lemon_1 : value := VObject 1 [("color", PString "yellow")]%string.
Definition lemon_2 : value := VObject 2 [("color", PString "yellow")]%string.

(** * Properties *)

(** ** Running a method *)

Lemma bind_load {A : Type} (r : ref) (f : array -> M A) (h : heap) (a : array) :
  h !! r = Some a -> (load r ≫= f) h = f a h.
Proof. intros Hr. unfold mbind, M_bind, load. now rewrite Hr. Qed.

Lemma bind_alloc {A : Type} (a : array) (f : ref -> M A) (h : heap) :
  (alloc a ≫= f) h = f (length h) (h ++ [a]).
Proof. reflexivity. Qed.

Lemma bind_lift_Ret {A B : Type} (x : A) (f : A -> M B) (h : heap) :
  (lift (Ret x) ≫= f) h = f x h.
Proof. reflexivity. Qed.

Lemma bind_lift_Throw {A B : Type} (e : error) (f : A -> M B) (h : heap) :
  (lift (Throw e) ≫= f) h = (Throw e, h).
Proof. reflexivity. Qed.

Lemma lookup_fresh (h : heap) (a : array) : (h ++ [a]) !! length h = Some a.
Proof. rewrite lookup_app_r by lia. now rewrite Nat.sub_diag. Qed.

Lemma lookup_old (h ext : heap) (r : ref) (a : array) :
  h !! r = Some a -> (h ++ ext) !! r = Some a.
Proof. intros Hr. now apply lookup_app_l_Some. Qed.

(** ** [slice] *)

Lemma array_slice_prefix (n : Z) (a : array) :
  0 <= n ->
  array_slice 0 n a = firstn (Z.to_nat (Z.min n (Z.of_nat (length a)))) a.
Proof.
  intros Hn. unfold array_slice, relative_index.
  destruct (Z.ltb_spec n 0) as [?|_]; [lia|].
  change (0 <? 0) with false. cbv zeta.
  replace (Z.min 0 (Z.of_nat (length a))) with 0 by lia.
  change (Z.to_nat 0) with 0%nat. rewrite skipn_O.
  f_equal. lia.
Qed.

Lemma array_slice_prefix_negative (n : Z) (a : array) :
  n < 0 ->
  array_slice 0 n a = firstn (Z.to_nat (Z.max (Z.of_nat (length a) + n) 0)) a.
Proof.
  intros Hn. unfold array_slice, relative_index.
  destruct (Z.ltb_spec n 0) as [_|?]; [|lia].
  change (0 <? 0) with false. cbv zeta.
  replace (Z.min 0 (Z.of_nat (length a))) with 0 by lia.
  change (Z.to_nat 0) with 0%nat. rewrite skipn_O.
  f_equal. lia.
Qed.

Lemma array_slice_suffix (n : Z) (a : array) :
  0 <= n <= Z.of_nat (length a) ->
  array_slice n (Z.of_nat (length a)) a = skipn (Z.to_nat n) a.
Proof.
  intros Hn. unfold array_slice, relative_index.
  destruct (Z.ltb_spec n 0) as [?|_]; [lia|].
  destruct (Z.ltb_spec (Z.of_nat (length a)) 0) as [?|_]; [lia|].
  cbv zeta. rewrite !Z.min_l by lia.
  apply firstn_all2. rewrite length_skipn. lia.
Qed.

(** C7.  For every sequence [a] held by the receiver and every [n] with
    [0 <= n <= length a], taking [n] and then skipping [n] yields two new
    sequences, the first of [n] elements, whose concatenation is exactly
    [a]. *)
Theorem Take_Skip_partition (h : heap) (this : ref) (a : array) (n : Z) :
  h !! this = Some a ->
  0 <= n <= Z.of_nat (length a) ->
  exists (r1 r2 : ref) (h1 h2 : heap) (front back : array),
    Take n this h = (Ret r1, h1) /\
    Skip n this h1 = (Ret r2, h2) /\
    h2 !! r1 = Some front /\
    h2 !! r2 = Some back /\
    Z.of_nat (length front) = n /\
    front ++ back = a.
Proof.
  intros Hthis Hn.
  exists (length h), (length (h ++ [array_slice 0 n a])).
  exists (h ++ [array_slice 0 n a]).
  exists ((h ++ [array_slice 0 n a]) ++ [array_slice n (Z.of_nat (length a)) a]).
  exists (array_slice 0 n a), (array_slice n (Z.of_nat (length a)) a).
  repeat split.
  - unfold Take. now rewrite (bind_load _ _ _ _ Hthis).
  - unfold Skip. now rewrite (bind_load _ _ _ a (lookup_old _ _ _ _ Hthis)).
  - apply lookup_old, lookup_fresh.
  - apply lookup_fresh.
  - rewrite array_slice_prefix by lia. rewrite Z.min_l by lia.
    rewrite length_firstn. lia.
  - rewrite array_slice_prefix, array_slice_suffix by lia.
    rewrite Z.min_l by lia. apply firstn_skipn.
Qed.

Lemma Take_Skip_partition_witness :
  [sample_numbers] !! 0%nat = Some sample_numbers /\
  0 <= 2 <= Z.of_nat (length sample_numbers) /\
  exists (r1 r2 : ref) (h1 h2 : heap) (front back : array),
    Take 2 0%nat [sample_numbers] = (Ret r1, h1) /\
    Skip 2 0%nat h1 = (Ret r2, h2) /\
    h2 !! r1 = Some front /\
    h2 !! r2 = Some back /\
    Z.of_nat (length front) = 2 /\
    front ++ back = sample_numbers.
Proof.
  assert (Hn : 0 <= 2 <= Z.of_nat (length sample_numbers)) by (simpl; lia).
  split; [reflexivity|]. split; [exact Hn|].
  exact (Take_Skip_partition [sample_numbers] 0%nat sample_numbers 2 eq_refl Hn).
Defined.

(** ** [Take] *)

(** C2 (amended).  [Take n] returns a new sequence and leaves the store
    otherwise as it was.  For [0 <= n] the new sequence holds the first
    [min n (length a)] elements of the receiver, in order, so [Take 0] is
    empty; for [n < 0] it holds the first [max (length a + n) 0] elements:
    a negative count drops elements from the end. *)
Theorem Take_contents (h : heap) (this : ref) (a : array) (n : Z) :
  h !! this = Some a ->
  exists result : array,
    Take n this h = (Ret (length h), h ++ [result]) /\
    (0 <= n -> result = firstn (Z.to_nat (Z.min n (Z.of_nat (length a)))) a) /\
    (n = 0 -> result = []) /\
    (n < 0 -> result = firstn (Z.to_nat (Z.max (Z.of_nat (length a) + n) 0)) a).
Proof.
  intros Hthis. exists (array_slice 0 n a). repeat split.
  - unfold Take. now rewrite (bind_load _ _ _ _ Hthis).
  - apply array_slice_prefix.
  - intros ->. rewrite array_slice_prefix by lia.
    now replace (Z.min 0 (Z.of_nat (length a))) with 0 by lia.
  - apply array_slice_prefix_negative.
Qed.

Lemma Take_contents_witness :
  [sample_numbers] !! 0%nat = Some sample_numbers /\
  exists result : array,
    Take 2 0%nat [sample_numbers] = (Ret 1%nat, [sample_numbers] ++ [result]) /\
    (0 <= 2 -> result = firstn (Z.to_nat (Z.min 2 3)) sample_numbers) /\
    (2 = 0 -> result = []) /\
    (2 < 0 -> result = firstn (Z.to_nat (Z.max (3 + 2) 0)) sample_numbers).
Proof.
  split; [reflexivity|].
  exact (Take_contents [sample_numbers] 0%nat sample_numbers 2 eq_refl).
Defined.

(** C2, as stated, fails for a negative count: on [1, 2, 3], [Take (-1)]
    returns [1, 2] and not the empty sequence. *)
Lemma Take_negative_not_empty :
  Take (-1) 0%nat [dense [number 1; number 2; number 3]]
    = (Ret 1%nat, [dense [number 1; number 2; number 3]; dense [number 1; number 2]]) /\
  ~ (forall (r : ref) (h' : heap),
       Take (-1) 0%nat [dense [number 1; number 2; number 3]] = (Ret r, h') ->
       h' !! r = Some []).
Proof.
  split; [reflexivity|].
  intros Hclaim. specialize (Hclaim 1%nat _ eq_refl). discriminate Hclaim.
Qed.

(** ** [First] *)

Lemma find_filter {A : Type} (p : A -> bool) (l : list A) :
  List.find p l = head (List.filter p l).
Proof.
  induction l as [|x l IH]; [reflexivity|]. simpl. now destruct (p x).
Qed.

Lemma FirstOrDefault_run (predicate : option (value -> bool)) (h : heap) (this : ref)
    (a : array) :
  h !! this = Some a ->
  FirstOrDefault predicate this h = (Ret (default undefined (head (matching predicate a))), h).
Proof.
  intros Hthis. unfold FirstOrDefault. rewrite (bind_load _ _ _ _ Hthis).
  unfold mret, M_ret. do 2 f_equal.
  destruct predicate as [p|]; simpl.
  - unfold array_find. now rewrite find_filter.
  - now destruct a.
Qed.

(** C1 (amended).  [First] throws [InvalidOperationException] exactly when
    [FirstOrDefault] yields [undefined]: when no element satisfies the
    predicate (no element at all, when the predicate is omitted), or when the
    first element that does is itself [undefined] (an empty slot reads as
    [undefined]).  Otherwise it returns the first element, in iteration order,
    that satisfies the predicate.  The store is left as it was. *)
Theorem First_throws_iff (predicate : option (value -> bool)) (h : heap) (this : ref)
    (a : array) :
  h !! this = Some a ->
  (First predicate this h = (Throw InvalidOperationException, h) <->
     matching predicate a = [] \/ head (matching predicate a) = Some undefined) /\
  (forall x : value,
     head (matching predicate a) = Some x -> x <> undefined ->
     First predicate this h = (Ret x, h)).
Proof.
  intros Hthis.
  assert (Hrun : First predicate this h =
                 let item := default undefined (head (matching predicate a)) in
                 if is_undefined item then (Throw InvalidOperationException, h)
                 else (Ret item, h)).
  { unfold First, mbind, M_bind. rewrite (FirstOrDefault_run _ _ _ _ Hthis).
    cbv zeta. now destruct (is_undefined _). }
  rewrite Hrun. cbv zeta. split.
  - destruct (matching predicate a) as [|x rest]; simpl.
    + split; auto.
    + destruct x as [[]|]; simpl; split; intros Hx;
        solve [ now right | discriminate Hx
              | destruct Hx as [Hx|Hx]; [discriminate Hx | now inversion Hx] ].
  - intros x Hx Hdef. rewrite Hx. simpl.
    destruct x as [[]|]; simpl; try reflexivity. now destruct Hdef.
Qed.

Lemma First_throws_iff_witness :
  [sample_numbers] !! 0%nat = Some sample_numbers /\
  (First (Some (fun v => same_value_zero v (number 2))) 0%nat [sample_numbers]
     = (Throw InvalidOperationException, [sample_numbers]) <->
     matching (Some (fun v => same_value_zero v (number 2))) sample_numbers = [] \/
     head (matching (Some (fun v => same_value_zero v (number 2))) sample_numbers)
       = Some undefined) /\
  (forall x : value,
     head (matching (Some (fun v => same_value_zero v (number 2))) sample_numbers) = Some x ->
     x <> undefined ->
     First (Some (fun v => same_value_zero v (number 2))) 0%nat [sample_numbers]
       = (Ret x, [sample_numbers])).
Proof.
  split; [reflexivity|].
  exact (First_throws_iff (Some (fun v => same_value_zero v (number 2)))
           [sample_numbers] 0%nat sample_numbers eq_refl).
Defined.

(** C1, as stated, fails on a sequence that holds [undefined]: the receiver
    [[undefined]] is not empty, and [First()] throws all the same. *)
Lemma First_throws_on_undefined_element :
  First None 0%nat [[Some undefined]] = (Throw InvalidOperationException, [[Some undefined]]) /\
  ~ (fst (First None 0%nat [[Some undefined]]) = Throw InvalidOperationException <->
     [Some undefined] = @nil slot).
Proof.
  split; [reflexivity|].
  intros [Hthrows _]. specialize (Hthrows eq_refl). discriminate Hthrows.
Qed.

(** ** Calls with a spread *)

Lemma spread_within (limit : nat) (a : array) :
  (length a <= limit)%nat -> spread limit a = Ret (iterate a).
Proof.
  intros Hlen. unfold spread.
  now destruct (Nat.leb_spec (length a) limit) as [_|?]; [|lia].
Qed.

Lemma spread_beyond (limit : nat) (a : array) :
  (limit < length a)%nat -> spread limit a = Throw RangeError.
Proof.
  intros Hlen. unfold spread.
  now destruct (Nat.leb_spec (length a) limit) as [?|_]; [lia|].
Qed.

Lemma spread_Ret (limit : nat) (a : array) (args : list value) :
  spread limit a = Ret args -> (length a <= limit)%nat /\ args = iterate a.
Proof.
  unfold spread. destruct (Nat.leb_spec (length a) limit) as [Hlen|_]; [|discriminate].
  now intros [= <-].
Qed.

(** A call with one argument is within the limit of every host. *)
Ltac one_argument := rewrite spread_within by exact construct_limit_positive.

(** ** [AsLinq] *)

Lemma AsLinq_run {host : Host} (h : heap) (arr : ref) (a : array) :
  h !! arr = Some a ->
  (length a <= construct_limit)%nat ->
  lone_number (iterate a) = false ->
  AsLinq arr h = (Ret (length h), h ++ [dense (iterate a)]).
Proof.
  intros Harr Hlen Hlone. unfold AsLinq. rewrite (bind_load _ _ _ _ Harr).
  rewrite (spread_within _ _ Hlen), bind_lift_Ret.
  assert (Hc : array_construct (iterate a) = Ret (dense (iterate a))).
  { destruct (iterate a) as [|[[]|] [|]]; try reflexivity. discriminate Hlone. }
  now rewrite Hc.
Qed.

(** Beyond the limit of the host the call throws, and creates nothing. *)
Lemma AsLinq_beyond {host : Host} (h : heap) (arr : ref) (a : array) :
  h !! arr = Some a ->
  (construct_limit < length a)%nat ->
  AsLinq arr h = (Throw RangeError, h).
Proof.
  intros Harr Hlen. unfold AsLinq. rewrite (bind_load _ _ _ _ Harr).
  now rewrite (spread_beyond _ _ Hlen).
Qed.

(** C3.  The copy goes through [new LINQArray(...arr)], and the [Array]
    constructor reads a single numeric argument as a length: the copy of
    [[3]] is an array of three empty slots, and copying [[-1]] throws a
    [RangeError].  In both cases the source array is left as it was. *)
Theorem AsLinq_single_number {host : Host} :
  AsLinq 0%nat [dense [number 3]]
    = (Ret 1%nat, [dense [number 3]; [None; None; None]]) /\
  AsLinq 0%nat [dense [number (-1)]]
    = (Throw RangeError, [dense [number (-1)]]).
Proof.
  split; unfold AsLinq.
  - rewrite (bind_load 0%nat _ [dense [number 3]] _ eq_refl). one_argument.
    reflexivity.
  - rewrite (bind_load 0%nat _ [dense [number (-1)]] _ eq_refl). one_argument.
    reflexivity.
Qed.

(** ** [DistinctBy] *)

(** C4.  [DistinctBy] keeps the last element of each key, and then hands the
    kept elements to [AsLinq]: when a single number is kept, the result is
    not that number but as many empty slots.  On [[1, 2]] with a constant
    key, the element kept is 2 and the result is two empty slots. *)
Theorem DistinctBy_single_number {host : Host} :
  DistinctBy (fun _ => str "k") 0%nat [dense [number 1; number 2]]
    = (Ret 2%nat, [dense [number 1; number 2]; dense [number 2]; [None; None]]).
Proof.
  unfold DistinctBy. rewrite (bind_load 0%nat _ [dense [number 1; number 2]] _ eq_refl).
  change (new_Map (array_map (fun i => (str "k", i)) (dense [number 1; number 2])))
    with (Ret [(str "k", number 2)]).
  rewrite bind_lift_Ret, bind_alloc. unfold AsLinq.
  rewrite (bind_load 1%nat _ ([dense [number 1; number 2]] ++ [dense [number 2]]) _ eq_refl). one_argument.
  reflexivity.
Qed.

(** ** Failures other than [First]'s *)

(** C9.  [GroupBy] throws a [TypeError] when a key names a member of
    [Object.prototype]; [Distinct] throws a [RangeError] when the one
    distinct value is a negative number; [DistinctBy] throws a [TypeError]
    on a receiver with an empty slot. *)
Theorem other_methods_throw {host : Host} :
  fst (GroupBy (fun _ => KString "constructor") 0%nat [dense [str "a"]]) = Throw TypeError /\
  fst (Distinct 0%nat [dense [number (-1); number (-1)]]) = Throw RangeError /\
  fst (DistinctBy (fun v => v) 0%nat [[None; Some (number 1)]]) = Throw TypeError.
Proof.
  repeat split; try reflexivity.
  unfold Distinct.
  rewrite (bind_load 0%nat _ [dense [number (-1); number (-1)]] _ eq_refl), bind_alloc.
  unfold AsLinq. rewrite (bind_load 1%nat _ ([dense [number (-1); number (-1)]] ++ [dense [number (-1)]]) _ eq_refl).
  one_argument. reflexivity.
Qed.

(** ** The receiver of a query *)

Lemma grows_unmodified {A : Type} (c : M A) (h : heap) : grows c h -> unmodified c h.
Proof. intros [created Hc] r a Hr. rewrite Hc. now apply lookup_old. Qed.

Lemma grows_new_grows (c : M ref) (h : heap) : grows_new c h -> grows c h.
Proof. intros (created & Hc & _). now exists created. Qed.

Lemma grows_new_returns_new (c : M ref) (h : heap) : grows_new c h -> returns_new c h.
Proof.
  intros (created & Hc & Hr) r Hret. specialize (Hr r Hret). split.
  - apply lookup_ge_None. lia.
  - apply lookup_lt_is_Some. rewrite Hc, length_app. lia.
Qed.

Lemma grows_same {A : Type} (c : M A) (h : heap) : snd (c h) = h -> grows c h.
Proof. intros Hc. exists []. now rewrite app_nil_r. Qed.

Lemma load_dangling {A : Type} (r : ref) (f : array -> M A) (h : heap) :
  h !! r = None -> (load r ≫= f) h = (Throw TypeError, h).
Proof. intros Hr. unfold mbind, M_bind, load. now rewrite Hr. Qed.

Lemma grows_new_alloc (this : ref) (f : array -> array) (h : heap) :
  grows_new (load this ≫= fun a => alloc (f a)) h.
Proof.
  unfold grows_new. destruct (h !! this) as [a|] eqn:Hthis.
  - rewrite (bind_load _ _ _ _ Hthis). exists [f a]. split; [reflexivity|].
    intros r [= <-]. simpl. lia.
  - rewrite (load_dangling _ _ _ Hthis). exists []. split; [now rewrite app_nil_r|].
    intros r [=].
Qed.

Lemma grows_pure {A : Type} (this : ref) (f : array -> A) (h : heap) :
  grows (load this ≫= fun a => mret (f a)) h.
Proof.
  apply grows_same. destruct (h !! this) as [a|] eqn:Hthis.
  - now rewrite (bind_load _ _ _ _ Hthis).
  - now rewrite (load_dangling _ _ _ Hthis).
Qed.

Lemma grows_new_AsLinq {host : Host} (arr : ref) (h : heap) : grows_new (AsLinq arr) h.
Proof.
  unfold grows_new, AsLinq. destruct (h !! arr) as [a|] eqn:Harr.
  - rewrite (bind_load _ _ _ _ Harr). destruct (spread construct_limit a) as [args|e].
    + rewrite bind_lift_Ret. destruct (array_construct args) as [elements|e].
      * rewrite bind_lift_Ret. exists [elements]. split; [reflexivity|].
        intros r [= <-]. simpl. lia.
      * rewrite bind_lift_Throw. exists []. split; [now rewrite app_nil_r|]. intros r [=].
    + rewrite bind_lift_Throw. exists []. split; [now rewrite app_nil_r|]. intros r [=].
  - rewrite (load_dangling _ _ _ Harr). exists []. split; [now rewrite app_nil_r|].
    intros r [=].
Qed.

(** The array literal of [Distinct] and [DistinctBy] is created first, the
    copy after it. *)
Lemma grows_new_after_alloc {host : Host} (literal : array) (h : heap) :
  grows_new (alloc literal ≫= AsLinq) h.
Proof.
  unfold grows_new. rewrite bind_alloc.
  destruct (grows_new_AsLinq (length h) (h ++ [literal])) as (created & Hc & Hr).
  exists (literal :: created). split.
  - rewrite Hc. now rewrite <- app_assoc.
  - intros r Hret. specialize (Hr r Hret). rewrite length_app in Hr. simpl in *. lia.
Qed.

Lemma grows_new_Distinct {host : Host} (this : ref) (h : heap) :
  grows_new (Distinct this) h.
Proof.
  unfold grows_new, Distinct. destruct (h !! this) as [a|] eqn:Hthis.
  - rewrite (bind_load _ _ _ _ Hthis). apply grows_new_after_alloc.
  - rewrite (load_dangling _ _ _ Hthis). exists []. split; [now rewrite app_nil_r|].
    intros r [=].
Qed.

Lemma grows_new_DistinctBy {host : Host} (predicate : value -> value) (this : ref)
    (h : heap) :
  grows_new (DistinctBy predicate this) h.
Proof.
  unfold grows_new, DistinctBy. destruct (h !! this) as [a|] eqn:Hthis.
  - rewrite (bind_load _ _ _ _ Hthis).
    destruct (new_Map (array_map (fun i => (predicate i, i)) a)) as [m|e].
    + rewrite bind_lift_Ret. apply grows_new_after_alloc.
    + rewrite bind_lift_Throw. exists []. split; [now rewrite app_nil_r|]. intros r [=].
  - rewrite (load_dangling _ _ _ Hthis). exists []. split; [now rewrite app_nil_r|].
    intros r [=].
Qed.

Lemma grows_GroupBy (predicate : value -> key) (this : ref) (h : heap) :
  grows (GroupBy predicate this) h.
Proof.
  apply grows_same. unfold GroupBy. destruct (h !! this) as [a|] eqn:Hthis.
  - now rewrite (bind_load _ _ _ _ Hthis).
  - now rewrite (load_dangling _ _ _ Hthis).
Qed.

Lemma grows_First (predicate : option (value -> bool)) (this : ref) (h : heap) :
  grows (First predicate this) h.
Proof.
  apply grows_same. destruct (h !! this) as [a|] eqn:Hthis.
  - unfold First, mbind, M_bind. rewrite (FirstOrDefault_run _ _ _ _ Hthis).
    now destruct (is_undefined _).
  - unfold First, FirstOrDefault, mbind, M_bind, load. now rewrite Hthis.
Qed.

Lemma grows_new_frame (c : M ref) (h : heap) :
  grows_new c h -> unmodified c h /\ returns_new c h.
Proof.
  intros Hc. split.
  - now apply grows_unmodified, grows_new_grows.
  - now apply grows_new_returns_new.
Qed.

(** C10.  Every method other than [Add], [AddRange], [OrderBy] and
    [OrderByDescending] leaves every array of the store, the receiver among
    them, with the same slots in the same order; and the methods that
    produce a sequence return a reference to an array that did not exist
    before the call. *)
Theorem queries_leave_receiver_unmodified {host : Host} (h : heap) (this : ref) :
  (forall f, unmodified (Select f this) h /\ returns_new (Select f this) h) /\
  (forall p, unmodified (Where p this) h /\ returns_new (Where p this) h) /\
  (forall f, unmodified (SelectMany f this) h /\ returns_new (SelectMany f this) h) /\
  (forall k, unmodified (GroupBy k this) h) /\
  (unmodified (Distinct this) h /\ returns_new (Distinct this) h) /\
  (forall k, unmodified (DistinctBy k this) h /\ returns_new (DistinctBy k this) h) /\
  (forall p, unmodified (First p this) h) /\
  (forall p, unmodified (FirstOrDefault p this) h) /\
  (forall p, unmodified (Any p this) h) /\
  (forall n, unmodified (Take n this) h /\ returns_new (Take n this) h) /\
  (forall n, unmodified (Skip n this) h /\ returns_new (Skip n this) h) /\
  unmodified (Count this) h /\
  (unmodified (ToArray this) h /\ returns_new (ToArray this) h).
Proof.
  repeat apply conj; intros.
  - apply grows_new_frame, (grows_new_alloc this (array_map f)).
  - apply grows_new_frame, (grows_new_alloc this (array_filter p)).
  - apply grows_new_frame, (grows_new_alloc this (array_flatMap f)).
  - apply grows_unmodified, grows_GroupBy.
  - apply grows_unmodified, grows_new_grows, grows_new_Distinct.
  - apply grows_new_returns_new, grows_new_Distinct.
  - apply grows_new_frame, grows_new_DistinctBy.
  - apply grows_unmodified, grows_First.
  - apply grows_unmodified. unfold FirstOrDefault. apply grows_pure.
  - apply grows_unmodified. unfold Any. apply grows_pure.
  - apply grows_new_frame, (grows_new_alloc this (array_slice 0 n)).
  - apply grows_new_frame.
    apply (grows_new_alloc this (fun a => array_slice n (Z.of_nat (length a)) a)).
  - apply grows_unmodified. unfold Count. apply grows_pure.
  - apply grows_unmodified, grows_new_grows.
    apply (grows_new_alloc this (fun a => dense (iterate a))).
  - apply grows_new_returns_new.
    apply (grows_new_alloc this (fun a => dense (iterate a))).
Qed.

(** ** The host's sort *)

Section SortFacts.
Context {A : Type} (comparator : A -> A -> Z) (R : A -> A -> Prop).

(** [R] is the order the comparator aims at: an element that stops in front
    of another may precede it, an element that moves past another may follow
    it. *)
Hypothesis stops : forall x y, (0 <? comparator x y) = false -> R x y.
Hypothesis passes : forall x y, (0 <? comparator x y) = true -> R y x.
Hypothesis R_trans : forall x y z, R x y -> R y z -> R x z.

Lemma insert_sorted_perm (x : A) (l : list A) :
  Permutation (x :: l) (insert_sorted comparator x l).
Proof.
  induction l as [|y l IH]; simpl; [reflexivity|].
  destruct (0 <? comparator x y); [|reflexivity].
  rewrite perm_swap. now apply perm_skip.
Qed.

Lemma sort_with_perm (l : list A) : Permutation l (sort_with comparator l).
Proof.
  unfold sort_with.
  enough (Hgen : forall acc, Permutation (acc ++ l)
            (fold_left (fun acc x => insert_sorted comparator x acc) l acc))
    by exact (Hgen []).
  induction l as [|x l IH]; intros acc; simpl.
  - now rewrite app_nil_r.
  - rewrite <- IH. rewrite <- insert_sorted_perm.
    symmetry. apply Permutation_middle.
Qed.

Lemma insert_sorted_sorted (x : A) (l : list A) :
  StronglySorted R l -> StronglySorted R (insert_sorted comparator x l).
Proof using stops passes R_trans.
  induction 1 as [|y l Hl IH Hy]; simpl.
  - constructor; constructor.
  - destruct (0 <? comparator x y) eqn:Hxy.
    + constructor; [exact IH|].
      rewrite <- insert_sorted_perm. constructor; [now apply passes | exact Hy].
    + constructor; [now constructor|].
      constructor; [now apply stops|].
      eapply Forall_impl; [exact Hy|]. intros z Hz. simpl.
      apply R_trans with y; [now apply stops | exact Hz].
Qed.

Lemma sort_with_sorted (l : list A) : StronglySorted R (sort_with comparator l).
Proof using stops passes R_trans.
  unfold sort_with.
  enough (Hgen : forall acc, StronglySorted R acc ->
            StronglySorted R (fold_left (fun acc x => insert_sorted comparator x acc) l acc))
    by (apply Hgen; constructor).
  induction l as [|x l IH]; intros acc Hacc; simpl; [exact Hacc|].
  now apply IH, insert_sorted_sorted.
Qed.

End SortFacts.

(** What [sort] does to the slots: nothing is lost. *)
Lemma present_holes_perm (a : array) : Permutation a (dense (present a) ++ holes a).
Proof.
  induction a as [|[v|] a IH]; simpl.
  - reflexivity.
  - now apply perm_skip.
  - unfold holes in *. simpl. now rewrite <- Permutation_middle, <- IH.
Qed.

Lemma filter_split_perm {A : Type} (p : A -> bool) (l : list A) :
  Permutation l (List.filter (fun x => negb (p x)) l ++ List.filter p l).
Proof.
  induction l as [|x l IH]; simpl; [reflexivity|].
  destruct (p x); simpl.
  - now rewrite <- Permutation_middle, <- IH.
  - now apply perm_skip.
Qed.

Lemma array_sort_perm (comparator : value -> value -> Z) (a : array) :
  Permutation a (array_sort comparator a).
Proof.
  unfold array_sort. rewrite (present_holes_perm a) at 1.
  rewrite app_assoc. apply Permutation_app_tail.
  unfold dense. rewrite <- map_app. apply Permutation_map.
  rewrite (filter_split_perm is_undefined (present a)) at 1.
  apply Permutation_app_tail, sort_with_perm.
Qed.

(** ** [OrderBy] and [OrderByDescending] *)

#[global] Instance number_total_greater : TotalGreater Z.
Proof.
  split; unfold greater, number_greater; intros a b.
  - rewrite !Z.gtb_ltb. intros Hab%Z.ltb_lt. apply Z.ltb_ge. lia.
  - intros c. rewrite !Z.gtb_ltb. intros Hab%Z.ltb_ge Hbc%Z.ltb_ge. apply Z.ltb_ge. lia.
Qed.

Lemma present_dense (vs : list value) : present (dense vs) = vs.
Proof. induction vs as [|v vs IH]; simpl; [reflexivity | now rewrite IH]. Qed.

Lemma holes_dense (vs : list value) : holes (dense vs) = [].
Proof. induction vs as [|v vs IH]; [reflexivity | exact IH]. Qed.

Lemma iterate_dense (vs : list value) : iterate (dense vs) = vs.
Proof. induction vs as [|v vs IH]; simpl; [reflexivity | now rewrite IH]. Qed.

Lemma filter_none {A : Type} (p : A -> bool) (l : list A) :
  Forall (fun x => p x = false) l -> List.filter p l = [].
Proof.
  induction 1 as [|x l Hx _ IH]; simpl; [reflexivity|]. now rewrite Hx.
Qed.

Lemma filter_keeps {A : Type} (p : A -> bool) (l : list A) :
  Forall (fun x => p x = true) (List.filter p l).
Proof.
  induction l as [|x l IH]; simpl; [constructor|].
  destruct (p x) eqn:Hx; [now constructor | exact IH].
Qed.

Lemma store_receiver {A : Type} (f : array -> array) (ret : A) (h : heap) (this : ref)
    (a : array) :
  h !! this = Some a ->
  (load this ≫= fun a => store this (f a) ≫= fun _ => mret ret) h
    = (Ret ret, <[this := f a]> h) /\
  <[this := f a]> h !! this = Some (f a).
Proof.
  intros Hthis. split.
  - now rewrite (bind_load _ _ _ _ Hthis).
  - apply list_lookup_insert_eq. now apply lookup_lt_Some in Hthis.
Qed.

(** The layout [sort] gives the receiver: the values that are not
    [undefined], in the order of the comparator; then the [undefined] values;
    then the empty slots. *)
Lemma array_sort_layout (comparator : value -> value -> Z) (R : value -> value -> Prop)
    (a : array) :
  (forall x y, (0 <? comparator x y) = false -> R x y) ->
  (forall x y, (0 <? comparator x y) = true -> R y x) ->
  (forall x y z, R x y -> R y z -> R x z) ->
  exists sorted : list value,
    let result := dense sorted ++ dense (List.filter is_undefined (present a)) ++ holes a in
    array_sort comparator a = result /\
    Permutation a result /\
    Forall (fun v => is_undefined v = false) sorted /\
    StronglySorted R sorted /\
    (forall vs, a = dense vs -> Forall (fun v => is_undefined v = false) vs ->
       result = dense sorted).
Proof.
  intros Hstops Hpasses Htrans.
  exists (sort_with comparator (List.filter (fun v => negb (is_undefined v)) (present a))).
  cbv zeta. split; [reflexivity|]. split; [apply array_sort_perm|]. split; [|split].
  - rewrite <- sort_with_perm.
    eapply Forall_impl; [apply filter_keeps|]. intros v Hv. simpl in Hv.
    now apply negb_true_iff.
  - now apply sort_with_sorted.
  - intros vs -> Hvs. rewrite present_dense, holes_dense, (filter_none _ _ Hvs).
    simpl. now rewrite app_nil_r.
Qed.

(** C6 (amended).  For keys that [>] orders totally, [OrderBy] returns its
    receiver, whose slots it has permuted: the values other than [undefined]
    come first, no earlier one having a greater key than a later one; the
    [undefined] values follow, whatever their keys; the empty slots come
    last.  A receiver without [undefined] and without empty slots is sorted
    as a whole.  [OrderByDescending] does the same with no later key greater
    than an earlier one. *)
Theorem OrderBy_sorts {K : Type} `{TotalGreater K} (predicate : value -> K)
    (h : heap) (this : ref) (a : array) :
  h !! this = Some a ->
  (exists sorted : list value,
     let result := dense sorted ++ dense (List.filter is_undefined (present a)) ++ holes a in
     OrderBy predicate this h = (Ret this, <[this := result]> h) /\
     <[this := result]> h !! this = Some result /\
     Permutation a result /\
     Forall (fun v => is_undefined v = false) sorted /\
     StronglySorted (fun x y => greater (predicate x) (predicate y) = false) sorted /\
     (forall vs, a = dense vs -> Forall (fun v => is_undefined v = false) vs ->
        result = dense sorted)) /\
  (exists sorted : list value,
     let result := dense sorted ++ dense (List.filter is_undefined (present a)) ++ holes a in
     OrderByDescending predicate this h = (Ret this, <[this := result]> h) /\
     <[this := result]> h !! this = Some result /\
     Permutation a result /\
     Forall (fun v => is_undefined v = false) sorted /\
     StronglySorted (fun x y => greater (predicate y) (predicate x) = false) sorted /\
     (forall vs, a = dense vs -> Forall (fun v => is_undefined v = false) vs ->
        result = dense sorted)).
Proof.
  intros Hthis. split.
  - destruct (array_sort_layout
                (fun a b => if greater (predicate a) (predicate b) then 1 else -1)
                (fun x y => greater (predicate x) (predicate y) = false) a)
      as (sorted & Hsort & Hrest).
    + intros x y. now destruct (greater (predicate x) (predicate y)).
    + intros x y. destruct (greater (predicate x) (predicate y)) eqn:Hxy; [|discriminate].
      intros _. now apply greater_asym.
    + intros x y z. apply greater_negtrans.
    + exists sorted. cbv zeta in *. rewrite <- Hsort.
      destruct (store_receiver
                  (array_sort (fun a b => if greater (predicate a) (predicate b) then 1 else -1))
                  this h this a Hthis) as [Hrun Hget].
      split; [exact Hrun|]. split; [exact Hget|]. rewrite Hsort. exact Hrest.
  - destruct (array_sort_layout
                (fun a b => if greater (predicate a) (predicate b) then -1 else 1)
                (fun x y => greater (predicate y) (predicate x) = false) a)
      as (sorted & Hsort & Hrest).
    + intros x y. destruct (greater (predicate x) (predicate y)) eqn:Hxy; [|discriminate].
      intros _. now apply greater_asym.
    + intros x y. now destruct (greater (predicate x) (predicate y)).
    + intros x y z Hxy Hyz. now apply greater_negtrans with (predicate y).
    + exists sorted. cbv zeta in *. rewrite <- Hsort.
      destruct (store_receiver
                  (array_sort (fun a b => if greater (predicate a) (predicate b) then -1 else 1))
                  this h this a Hthis) as [Hrun Hget].
      split; [exact Hrun|]. split; [exact Hget|]. rewrite Hsort. exact Hrest.
Qed.

Lemma OrderBy_sorts_witness :
  [sample_numbers] !! 0%nat = Some sample_numbers /\
  exists sorted : list value,
    OrderBy number_or_zero 0%nat [sample_numbers]
      = (Ret 0%nat,
         <[0%nat := dense sorted
                      ++ dense (List.filter is_undefined (present sample_numbers))
                      ++ holes sample_numbers]> [sample_numbers]) /\
    StronglySorted (fun x y => greater (number_or_zero x) (number_or_zero y) = false) sorted.
Proof.
  split; [reflexivity|].
  destruct (OrderBy_sorts number_or_zero [sample_numbers] 0%nat sample_numbers eq_refl)
    as [(sorted & Hrun & _ & _ & _ & Hsorted & _) _].
  exists sorted. split; assumption.
Defined.

(** C6, as stated, fails on a sequence that holds [undefined]: [sort] moves
    [undefined] behind every other value without asking the comparator.  With
    the key [x ?? 0], [[undefined, 1]] is reordered to [[1, undefined]], whose
    keys 1, 0 decrease. *)
Lemma OrderBy_undefined_last :
  OrderBy number_or_zero 0%nat [dense [undefined; number 1]]
    = (Ret 0%nat, [dense [number 1; undefined]]) /\
  ~ StronglySorted (fun x y => greater (number_or_zero x) (number_or_zero y) = false)
      [number 1; undefined].
Proof.
  split; [reflexivity|].
  intros Hsorted. apply StronglySorted_inv in Hsorted as [_ Hfirst].
  apply Forall_inv in Hfirst. discriminate Hfirst.
Qed.

(** ** First occurrences *)

Section FirstOccurrences.
Context {A : Type} (same : A -> A -> bool).
Hypothesis same_sym : forall x y, same x y = same y x.
Hypothesis same_trans : forall x y z, same x y = true -> same y z = true -> same x z = true.

Lemma first_occurrences_after_snoc (earlier l : list A) (y : A) :
  first_occurrences_after same earlier (l ++ [y])
  = first_occurrences_after same earlier l
      ++ (if existsb (same y) (rev l ++ earlier) then [] else [y]).
Proof.
  revert earlier. induction l as [|x l IH]; intros earlier; simpl.
  - now destruct (existsb (same y) earlier).
  - rewrite IH, <- app_assoc. simpl. now destruct (existsb (same x) earlier).
Qed.

Lemma existsb_reverse (p : A -> bool) (l : list A) : existsb p (rev l) = existsb p l.
Proof.
  induction l as [|x l IH]; simpl; [reflexivity|].
  rewrite existsb_app, IH. simpl. rewrite orb_false_r. apply orb_comm.
Qed.

Lemma existsb_pointwise (p q : A -> bool) (l : list A) :
  (forall x, p x = q x) -> existsb p l = existsb q l.
Proof.
  intros Hpq. induction l as [|x l IH]; simpl; [reflexivity|]. now rewrite Hpq, IH.
Qed.

Lemma first_occurrences_snoc (l : list A) (y : A) :
  first_occurrences same (l ++ [y])
  = first_occurrences same l ++ (if existsb (same y) l then [] else [y]).
Proof.
  unfold first_occurrences. rewrite first_occurrences_after_snoc.
  now rewrite app_nil_r, existsb_reverse.
Qed.

Lemma existsb_same_trans (x y : A) (l : list A) :
  same x y = true -> existsb (same y) l = true -> existsb (same x) l = true.
Proof using same_trans.
  intros Hxy Hy. apply existsb_exists in Hy as (z & Hz & Hyz).
  apply existsb_exists. exists z. split; [exact Hz|]. now apply same_trans with y.
Qed.

(** Up to [same], the first occurrences have the members of the list. *)
Lemma existsb_first_occurrences (x : A) (l : list A) :
  existsb (same x) (first_occurrences same l) = existsb (same x) l.
Proof using same_sym same_trans.
  induction l as [|y l IH] using rev_ind; [reflexivity|].
  rewrite first_occurrences_snoc, !existsb_app, IH. simpl. rewrite orb_false_r.
  destruct (existsb (same y) l) eqn:Hy; simpl; [|now rewrite orb_false_r].
  rewrite orb_false_r. destruct (same x y) eqn:Hxy; [|now rewrite orb_false_r].
  rewrite (existsb_same_trans x y l Hxy Hy). reflexivity.
Qed.

Lemma kept_not_earlier (earlier l : list A) (y : A) :
  In y (first_occurrences_after same earlier l) -> existsb (same y) earlier = false.
Proof.
  revert earlier. induction l as [|x l IH]; intros earlier; simpl; [intros []|].
  assert (Hrest : In y (first_occurrences_after same (x :: earlier) l) ->
                  existsb (same y) earlier = false).
  { intros Hy. apply IH in Hy. simpl in Hy. now apply orb_false_iff in Hy. }
  destruct (existsb (same x) earlier) eqn:Hx; [exact Hrest|].
  intros [<-|Hy]; [exact Hx | now apply Hrest].
Qed.

(** No two of the first occurrences are the same. *)
Lemma first_occurrences_after_distinct (earlier l : list A) :
  ForallOrdPairs (fun x y => same x y = false) (first_occurrences_after same earlier l).
Proof using same_sym.
  revert earlier. induction l as [|x l IH]; intros earlier; simpl; [constructor|].
  destruct (existsb (same x) earlier); [apply IH|].
  constructor; [|apply IH].
  apply List.Forall_forall. intros y Hy. apply kept_not_earlier in Hy.
  simpl in Hy. apply orb_false_iff in Hy as [Hyx _]. now rewrite same_sym.
Qed.

(** The first occurrences are elements of the list, in its order. *)
Lemma first_occurrences_after_sublist (earlier l : list A) :
  sublist (first_occurrences_after same earlier l) l.
Proof.
  revert earlier. induction l as [|x l IH]; intros earlier; simpl; [constructor|].
  destruct (existsb (same x) earlier).
  - apply sublist_cons, IH.
  - apply sublist_skip, IH.
Qed.

(** A list without repetition is its own list of first occurrences. *)
Lemma first_occurrences_after_id (earlier l : list A) :
  Forall (fun x => existsb (same x) earlier = false) l ->
  ForallOrdPairs (fun x y => same x y = false) l ->
  first_occurrences_after same earlier l = l.
Proof using same_sym.
  revert earlier. induction l as [|x l IH]; intros earlier Hearlier Hpairs; [reflexivity|].
  simpl. apply Forall_cons_1 in Hearlier as [Hx Hl].
  inversion Hpairs as [|? ? Hxl Hpairs']; subst.
  rewrite Hx. f_equal. apply IH; [|exact Hpairs'].
  apply List.Forall_forall. intros y Hy. simpl.
  rewrite List.Forall_forall in Hl, Hxl.
  rewrite same_sym, (Hxl y Hy). now apply Hl.
Qed.

End FirstOccurrences.

(** ** [Distinct] *)

Lemma same_value_zero_sym (x y : value) : same_value_zero x y = same_value_zero y x.
Proof.
  destruct x as [p|a f], y as [q|b g]; simpl; try reflexivity.
  - apply bool_decide_ext. split; congruence.
  - apply Nat.eqb_sym.
Qed.

Lemma same_value_zero_trans (x y z : value) :
  same_value_zero x y = true -> same_value_zero y z = true -> same_value_zero x z = true.
Proof.
  destruct x as [p|a f], y as [q|b g], z as [r|c k]; simpl; try discriminate.
  - intros Hpq%bool_decide_eq_true Hqr%bool_decide_eq_true.
    apply bool_decide_eq_true. congruence.
  - intros Hab%Nat.eqb_eq Hbc%Nat.eqb_eq. apply Nat.eqb_eq. congruence.
Qed.

(** The set built from a list holds the list's first occurrences, in order. *)
Lemma new_Set_first_occurrences (l : list value) :
  new_Set l = first_occurrences same_value_zero l.
Proof.
  induction l as [|x l IH] using rev_ind; [reflexivity|].
  unfold new_Set in *. rewrite fold_left_app. simpl. rewrite IH.
  rewrite first_occurrences_snoc. unfold set_add.
  rewrite (existsb_first_occurrences _ same_value_zero_sym same_value_zero_trans).
  destruct (existsb (same_value_zero x) l); [now rewrite app_nil_r | reflexivity].
Qed.

Lemma length_dense (vs : list value) : length (dense vs) = length vs.
Proof. apply length_map. Qed.

Lemma Distinct_run {host : Host} (h : heap) (this : ref) (a : array) :
  h !! this = Some a ->
  (length (new_Set (iterate a)) <= construct_limit)%nat ->
  lone_number (new_Set (iterate a)) = false ->
  Distinct this h
    = (Ret (S (length h)),
       (h ++ [dense (new_Set (iterate a))]) ++ [dense (new_Set (iterate a))]).
Proof.
  intros Hthis Hlen Hlone. unfold Distinct.
  rewrite (bind_load _ _ _ _ Hthis), bind_alloc.
  rewrite (AsLinq_run _ _ (dense (new_Set (iterate a)))).
  - rewrite iterate_dense, length_app. simpl. do 2 f_equal. lia.
  - apply lookup_fresh.
  - now rewrite length_dense.
  - now rewrite iterate_dense.
Qed.

(** C5 (amended).  Provided the distinct values are not a single number, and
    are few enough to be the arguments of one call of the constructor (the
    limit of the host: [Distinct] ends in [new LINQArray(...arr)]),
    [Distinct] returns a new sequence without empty slots that holds the first
    occurrence of each value of the receiver, in order of first occurrence
    (an empty slot of the receiver counting as [undefined]), where two values
    are the same under SameValueZero: primitives by value, objects by
    identity.  No two elements of the result are the same, every element of
    the result is an element of the receiver, and a receiver without empty
    slots and without two same elements is returned as it is. *)
Theorem Distinct_first_occurrences {host : Host} (h : heap) (this : ref) (a : array) :
  h !! this = Some a ->
  lone_number (first_occurrences same_value_zero (iterate a)) = false ->
  (length (first_occurrences same_value_zero (iterate a)) <= construct_limit)%nat ->
  exists (r : ref) (h' : heap) (d : list value),
    Distinct this h = (Ret r, h') /\
    h' !! r = Some (dense d) /\
    d = first_occurrences same_value_zero (iterate a) /\
    ForallOrdPairs (fun x y => same_value_zero x y = false) d /\
    sublist d (iterate a) /\
    (forall x, In x d -> In x (iterate a)) /\
    (forall vs, a = dense vs ->
       ForallOrdPairs (fun x y => same_value_zero x y = false) vs -> dense d = a).
Proof.
  intros Hthis Hlone Hlen. rewrite <- new_Set_first_occurrences in Hlone, Hlen.
  eexists _, _, (first_occurrences same_value_zero (iterate a)).
  split; [apply (Distinct_run _ _ _ Hthis Hlen Hlone)|].
  rewrite new_Set_first_occurrences.
  split; [|split; [reflexivity|split; [|split; [|split]]]].
  - replace (S (length h))
      with (length (h ++ [dense (first_occurrences same_value_zero (iterate a))]))
      by (rewrite length_app; simpl; lia).
    apply lookup_fresh.
  - apply first_occurrences_after_distinct, same_value_zero_sym.
  - apply first_occurrences_after_sublist.
  - intros x Hx. apply list_elem_of_In.
    eapply elem_of_sublist; [apply list_elem_of_In, Hx|].
    apply first_occurrences_after_sublist.
  - intros vs -> Hvs. rewrite iterate_dense. f_equal.
    apply first_occurrences_after_id; [apply same_value_zero_sym| |exact Hvs].
    apply List.Forall_forall. reflexivity.
Qed.

Lemma Distinct_first_occurrences_witness :
  [dense [number 2; number 1; number 2]] !! 0%nat = Some (dense [number 2; number 1; number 2]) /\
  lone_number (first_occurrences same_value_zero
                 (iterate (dense [number 2; number 1; number 2]))) = false /\
  (length (first_occurrences same_value_zero
             (iterate (dense [number 2; number 1; number 2])))
   <= @construct_limit sample_host)%nat /\
  exists (r : ref) (h' : heap) (d : list value),
    Distinct (host := sample_host) 0%nat [dense [number 2; number 1; number 2]]
      = (Ret r, h') /\
    h' !! r = Some (dense d) /\
    d = first_occurrences same_value_zero (iterate (dense [number 2; number 1; number 2])) /\
    ForallOrdPairs (fun x y => same_value_zero x y = false) d /\
    sublist d (iterate (dense [number 2; number 1; number 2])) /\
    (forall x, In x d -> In x (iterate (dense [number 2; number 1; number 2]))) /\
    (forall vs, dense [number 2; number 1; number 2] = dense vs ->
       ForallOrdPairs (fun x y => same_value_zero x y = false) vs ->
       dense d = dense [number 2; number 1; number 2]).
Proof.
  assert (Hlen : (length (first_occurrences same_value_zero
                            (iterate (dense [number 2; number 1; number 2])))
                  <= @construct_limit sample_host)%nat) by (vm_compute; lia).
  split; [reflexivity|]. split; [reflexivity|]. split; [exact Hlen|].
  exact (Distinct_first_occurrences (host := sample_host)
           [dense [number 2; number 1; number 2]] 0%nat
           (dense [number 2; number 1; number 2]) eq_refl eq_refl Hlen).
Defined.

(** C5, as stated, fails for objects: [Set] tells objects apart by identity,
    so two objects with the same fields are both kept, and the result holds
    two structurally equal elements (on a host that takes two arguments). *)
Lemma Distinct_keeps_equal_structures :
  Distinct (host := sample_host) 0%nat [dense [lemon_1; lemon_2]]
    = (Ret 2%nat, [dense [lemon_1; lemon_2]; dense [lemon_1; lemon_2]; dense [lemon_1; lemon_2]]) /\
  structurally_equal lemon_1 lemon_2 = true /\
  ~ ForallOrdPairs (fun x y => structurally_equal x y = false) [lemon_1; lemon_2].
Proof.
  split; [reflexivity|]. split; [reflexivity|].
  intros Hpairs. inversion Hpairs as [|? ? Hfirst _]; subst.
  apply Forall_inv in Hfirst. discriminate Hfirst.
Qed.

(** ** [GroupBy] *)

Lemma group_step_fold (predicate : value -> key) (items : list value) (groups : object) :
  Forall (fun x => inherited (to_property_key (predicate x)) = false) items ->
  fold_left (group_step predicate) items (Ret groups)
  = Ret (fold_left (group_add predicate) items groups).
Proof.
  intros Hitems. revert groups.
  induction Hitems as [|x items Hx _ IH]; intros groups; [reflexivity|].
  simpl. rewrite <- IH. f_equal. unfold group_add.
  destruct (own groups _); [reflexivity|]. now rewrite Hx.
Qed.

Lemma own_set_own (o : object) (p q : property_key) (arr : list value) :
  is_Some (own o p) ->
  own (set_own o p arr) q = if bool_decide (p = q) then Some arr else own o q.
Proof.
  induction o as [|[p' old] o IH]; simpl; intros Hp; [now destruct Hp|].
  destruct (bool_decide_reflect (p' = p)) as [->|Hne]; simpl.
  - now destruct (bool_decide (p = q)).
  - rewrite (IH Hp). destruct (bool_decide_reflect (p' = q)) as [->|_]; [|reflexivity].
    now rewrite bool_decide_eq_false_2 by congruence.
Qed.

Lemma own_new (o : object) (p q : property_key) (arr : list value) :
  own o p = None ->
  own (o ++ [(p, arr)]) q = if bool_decide (p = q) then Some arr else own o q.
Proof.
  induction o as [|[p' old] o IH]; simpl; intros Hp; [reflexivity|].
  destruct (bool_decide_reflect (p' = p)) as [->|Hne]; [discriminate Hp|].
  rewrite (IH Hp). destruct (bool_decide_reflect (p' = q)) as [->|_]; [|reflexivity].
  now rewrite bool_decide_eq_false_2 by congruence.
Qed.

Lemma keys_set_own (o : object) (p : property_key) (arr : list value) :
  map fst (set_own o p arr) = map fst o.
Proof.
  induction o as [|[p' old] o IH]; simpl; [reflexivity|].
  destruct (bool_decide (p' = p)); simpl; [reflexivity | now rewrite IH].
Qed.

Lemma own_group_add (predicate : value -> key) (groups : object) (item : value)
    (q : property_key) :
  own (group_add predicate groups item) q
  = if bool_decide (to_property_key (predicate item) = q)
    then Some (default [] (own groups q) ++ [item])
    else own groups q.
Proof.
  unfold group_add. cbv zeta.
  destruct (own groups (to_property_key (predicate item))) as [arr|] eqn:Hown.
  - rewrite own_set_own by (rewrite Hown; eauto).
    destruct (bool_decide_reflect (to_property_key (predicate item) = q)) as [<-|_];
      [now rewrite Hown | reflexivity].
  - rewrite (own_new _ _ _ _ Hown).
    destruct (bool_decide_reflect (to_property_key (predicate item) = q)) as [<-|_];
      [now rewrite Hown | reflexivity].
Qed.

Lemma keys_group_add (predicate : value -> key) (groups : object) (item : value) :
  map fst (group_add predicate groups item)
  = map fst groups
      ++ match own groups (to_property_key (predicate item)) with
         | Some _ => []
         | None => [to_property_key (predicate item)]
         end.
Proof.
  unfold group_add. cbv zeta.
  destruct (own groups (to_property_key (predicate item))).
  - now rewrite keys_set_own, app_nil_r.
  - now rewrite map_app.
Qed.

Lemma filter_snoc {A : Type} (p : A -> bool) (l : list A) (x : A) :
  List.filter p (l ++ [x]) = List.filter p l ++ (if p x then [x] else []).
Proof. rewrite List.filter_app. simpl. now destruct (p x). Qed.

(** Each key's sequence holds the elements of that key, in order. *)
Lemma own_groups (predicate : value -> key) (items : list value) (q : property_key) :
  own (fold_left (group_add predicate) items []) q
  = match List.filter (fun x => bool_decide (to_property_key (predicate x) = q)) items with
    | [] => None
    | members => Some members
    end.
Proof.
  induction items as [|x items IH] using rev_ind; [reflexivity|].
  rewrite fold_left_app. simpl. rewrite own_group_add, filter_snoc, IH.
  destruct (bool_decide (to_property_key (predicate x) = q)).
  - destruct (List.filter _ items); reflexivity.
  - now rewrite app_nil_r.
Qed.

Lemma members_existsb (predicate : value -> key) (items : list value) (q : property_key) :
  existsb (fun q' => bool_decide (q = q')) (map (fun x => to_property_key (predicate x)) items)
  = match List.filter (fun x => bool_decide (to_property_key (predicate x) = q)) items with
    | [] => false
    | _ => true
    end.
Proof.
  induction items as [|x items IH]; [reflexivity|]. simpl. rewrite IH.
  destruct (bool_decide_reflect (to_property_key (predicate x) = q)) as [<-|Hne].
  - now rewrite bool_decide_eq_true_2.
  - now rewrite bool_decide_eq_false_2 by congruence.
Qed.

(** The keys are created in the order of their first occurrence. *)
Lemma keys_groups (predicate : value -> key) (items : list value) :
  map fst (fold_left (group_add predicate) items [])
  = first_occurrences (fun p q => bool_decide (p = q))
      (map (fun x => to_property_key (predicate x)) items).
Proof.
  induction items as [|x items IH] using rev_ind; [reflexivity|].
  rewrite fold_left_app. simpl. rewrite keys_group_add, IH.
  rewrite map_app. simpl. rewrite first_occurrences_snoc. f_equal.
  rewrite own_groups, members_existsb.
  now destruct (List.filter _ items).
Qed.





(** ** [DistinctBy], when the copy does not go wrong *)

Section DistinctByFacts.
Context (predicate : value -> value).

Lemma new_Map_from_dense (entries : list (value * value)) (m : list (value * value)) :
  new_Map_from m (map Some entries)
  = Ret (fold_left (fun m e => map_set m e.1 e.2) entries m).
Proof.
  revert m. induction entries as [|[k v] entries IH]; intros m; [reflexivity|].
  simpl. apply IH.
Qed.

Lemma keys_map_set (m : list (value * value)) (k v : value) :
  map fst (map_set m k v)
  = map fst m ++ (if existsb (fun k' => same_value_zero k' k) (map fst m) then [] else [k]).
Proof.
  induction m as [|[k' v'] m IH]; simpl; [reflexivity|].
  destruct (same_value_zero k' k); simpl; [now rewrite app_nil_r | now rewrite IH].
Qed.

Lemma map_set_keys_Forall (P : value -> Prop) (m : list (value * value)) (k v : value) :
  Forall (fun e => P e.1) m -> P k -> Forall (fun e => P e.1) (map_set m k v).
Proof.
  intros Hm Hk. induction Hm as [|[k' v'] m Hk' Hm IH]; simpl.
  - now repeat constructor.
  - destruct (same_value_zero k' k); constructor; simpl in *; assumption.
Qed.

(** The keys of a map are pairwise different. *)
Lemma map_set_distinct (m : list (value * value)) (k v : value) :
  ForallOrdPairs (fun e1 e2 => same_value_zero e1.1 e2.1 = false) m ->
  ForallOrdPairs (fun e1 e2 => same_value_zero e1.1 e2.1 = false) (map_set m k v).
Proof.
  induction 1 as [|[k' v'] m Hk' Hm IH]; simpl.
  - repeat constructor.
  - destruct (same_value_zero k' k) eqn:Hsame.
    + constructor; assumption.
    + constructor; [|exact IH].
      apply (map_set_keys_Forall (fun key => same_value_zero k' key = false));
        [exact Hk' | exact Hsame].
Qed.

Lemma filter_key_snoc (key : value) (vs : list value) (x : value) :
  List.filter (fun y => same_value_zero key (predicate y)) (vs ++ [x])
  = List.filter (fun y => same_value_zero key (predicate y)) vs
      ++ (if same_value_zero key (predicate x) then [x] else []).
Proof. exact (filter_snoc (fun y => same_value_zero key (predicate y)) vs x). Qed.

(** Each key of the map holds the last element of that key. *)
Lemma map_set_last (vs : list value) (x : value) (m : list (value * value)) :
  ForallOrdPairs (fun e1 e2 => same_value_zero e1.1 e2.1 = false) m ->
  Forall (fun e => e.2 = last_of_key predicate vs e.1) m ->
  Forall (fun e => e.2 = last_of_key predicate (vs ++ [x]) e.1) (map_set m (predicate x) x).
Proof.
  unfold last_of_key.
  induction 1 as [|[k' v'] m Hk' Hm IH]; intros Hlast; simpl.
  - constructor; [|constructor]. simpl.
    rewrite filter_key_snoc.
    replace (same_value_zero (predicate x) (predicate x)) with true.
    + now rewrite last_snoc.
    + symmetry. destruct (predicate x); simpl; [now apply bool_decide_eq_true | apply Nat.eqb_refl].
  - apply Forall_cons_1 in Hlast as [Hhead Htail].
    destruct (same_value_zero k' (predicate x)) eqn:Hsame.
    + constructor.
      * simpl. rewrite filter_key_snoc, Hsame. now rewrite last_snoc.
      * rewrite List.Forall_forall in Htail, Hk'. apply List.Forall_forall. intros e He.
        rewrite filter_key_snoc.
        destruct (same_value_zero e.1 (predicate x)) eqn:He1.
        -- specialize (Hk' e He). simpl in Hk'. rewrite same_value_zero_sym in He1.
           rewrite (same_value_zero_trans _ _ _ Hsame He1) in Hk'. discriminate Hk'.
        -- rewrite app_nil_r. now apply Htail.
    + constructor.
      * simpl in *. rewrite filter_key_snoc, Hsame. now rewrite app_nil_r.
      * now apply IH.
Qed.

Lemma build_map_snoc (vs : list value) (x : value) :
  build_map predicate (vs ++ [x]) = map_set (build_map predicate vs) (predicate x) x.
Proof. unfold build_map. now rewrite map_app, fold_left_app. Qed.

Lemma build_map_keys (vs : list value) :
  map fst (build_map predicate vs) = first_occurrences same_value_zero (map predicate vs).
Proof.
  induction vs as [|x vs IH] using rev_ind; [reflexivity|].
  rewrite build_map_snoc, keys_map_set, IH, map_app. simpl.
  rewrite first_occurrences_snoc. f_equal.
  rewrite <- (existsb_first_occurrences _ same_value_zero_sym same_value_zero_trans).
  rewrite (existsb_pointwise (fun k' => same_value_zero k' (predicate x))
             (same_value_zero (predicate x)));
    [reflexivity | intros k'; apply same_value_zero_sym].
Qed.

Lemma build_map_invariant (vs : list value) :
  ForallOrdPairs (fun e1 e2 => same_value_zero e1.1 e2.1 = false) (build_map predicate vs) /\
  Forall (fun e => e.2 = last_of_key predicate vs e.1) (build_map predicate vs).
Proof.
  induction vs as [|x vs [IHd IHl]] using rev_ind.
  - split; constructor.
  - rewrite build_map_snoc. split.
    + now apply map_set_distinct.
    + now apply map_set_last.
Qed.

Lemma build_map_values (vs : list value) :
  map_values (build_map predicate vs) = last_occurrences predicate vs.
Proof.
  unfold last_occurrences, map_values. rewrite <- build_map_keys.
  destruct (build_map_invariant vs) as [_ Hlast].
  induction Hlast as [|e m He _ IH]; simpl; [reflexivity|]. now rewrite He, IH.
Qed.

Lemma DistinctBy_run {host : Host} (h : heap) (this : ref) (vs : list value) :
  h !! this = Some (dense vs) ->
  (length (last_occurrences predicate vs) <= construct_limit)%nat ->
  lone_number (last_occurrences predicate vs) = false ->
  DistinctBy predicate this h
    = (Ret (S (length h)),
       (h ++ [dense (last_occurrences predicate vs)])
         ++ [dense (last_occurrences predicate vs)]).
Proof.
  intros Hthis Hlen Hlone. unfold DistinctBy.
  rewrite (bind_load _ _ _ _ Hthis).
  assert (Hmap : new_Map (array_map (fun i => (predicate i, i)) (dense vs))
                 = Ret (build_map predicate vs)).
  { unfold new_Map, array_map, dense. rewrite map_map. simpl.
    rewrite <- (map_map (entry_of predicate) Some). apply new_Map_from_dense. }
  rewrite Hmap, bind_lift_Ret, bind_alloc, build_map_values.
  rewrite (AsLinq_run _ _ (dense (last_occurrences predicate vs))).
  - rewrite iterate_dense, length_app. simpl. do 2 f_equal. lia.
  - apply lookup_fresh.
  - now rewrite length_dense.
  - now rewrite iterate_dense.
Qed.

End DistinctByFacts.

Lemma filter_pointwise {A : Type} (p q : A -> bool) (l : list A) :
  (forall x, p x = q x) -> List.filter p l = List.filter q l.
Proof.
  intros Hpq. induction l as [|x l IH]; simpl; [reflexivity|]. now rewrite Hpq, IH.
Qed.

Lemma same_value_zero_refl (x : value) : same_value_zero x x = true.
Proof. destruct x; simpl; [now apply bool_decide_eq_true | apply Nat.eqb_refl]. Qed.

Lemma last_In {A : Type} (l : list A) (x : A) : last l = Some x -> In x l.
Proof.
  induction l as [|y [|z l] IH]; simpl; [discriminate| |].
  - intros [= ->]. now left.
  - intros Hx. right. now apply IH.
Qed.

(** Every element kept is an element of the receiver and the last one of its
    key. *)
Lemma last_occurrences_last (predicate : value -> value) (vs : list value) :
  Forall (fun x =>
            In x vs /\
            last (List.filter (fun y => same_value_zero (predicate x) (predicate y)) vs) = Some x)
    (last_occurrences predicate vs).
Proof.
  unfold last_occurrences. apply List.Forall_forall. intros x Hx.
  apply in_map_iff in Hx as (key & <- & Hkey).
  assert (Hin : In key (map predicate vs)).
  { apply list_elem_of_In. eapply elem_of_sublist; [apply list_elem_of_In, Hkey|].
    apply first_occurrences_after_sublist. }
  apply in_map_iff in Hin as (y0 & <- & Hy0).
  unfold last_of_key.
  destruct (last (List.filter (fun y => same_value_zero (predicate y0) (predicate y)) vs))
    as [x|] eqn:Hlast.
  - simpl. pose proof (last_In _ _ Hlast) as Hx.
    apply filter_In in Hx as [Hx Hsame]. split; [exact Hx|].
    rewrite <- Hlast. f_equal. apply filter_pointwise. intros y.
    destruct (same_value_zero (predicate y0) (predicate y)) eqn:Hy.
    + rewrite same_value_zero_sym in Hsame.
      apply (same_value_zero_trans _ _ _ Hsame Hy).
    + destruct (same_value_zero (predicate x) (predicate y)) eqn:Hxy; [|reflexivity].
      now rewrite (same_value_zero_trans _ _ _ Hsame Hxy) in Hy.
  - exfalso. apply last_None in Hlast.
    assert (Hmem : In y0 (List.filter (fun y => same_value_zero (predicate y0) (predicate y)) vs))
      by (apply filter_In; split; [exact Hy0 | apply same_value_zero_refl]).
    now rewrite Hlast in Hmem.
Qed.

(** [DistinctBy] on a receiver without empty slots, when the elements kept are
    not a single number and are few enough to be the arguments of one call of
    the constructor (the limit of the host): the result is a new sequence that
    holds, for each key in order of first occurrence, the last element of that
    key; keys are the same under SameValueZero.  The receiver is left as it
    was. *)
Theorem DistinctBy_last_occurrences {host : Host} (predicate : value -> value) (h : heap)
    (this : ref) (vs : list value) :
  h !! this = Some (dense vs) ->
  lone_number (last_occurrences predicate vs) = false ->
  (length (last_occurrences predicate vs) <= construct_limit)%nat ->
  exists (r : ref) (h' : heap),
    DistinctBy predicate this h = (Ret r, h') /\
    h !! r = None /\
    h' !! r = Some (dense (last_occurrences predicate vs)) /\
    h' !! this = Some (dense vs) /\
    Forall (fun x =>
              In x vs /\
              last (List.filter (fun y => same_value_zero (predicate x) (predicate y)) vs)
                = Some x)
      (last_occurrences predicate vs).
Proof.
  intros Hthis Hlone Hlen. eexists _, _.
  split; [apply (DistinctBy_run _ _ _ _ Hthis Hlen Hlone)|].
  split; [apply lookup_ge_None; lia|].
  split; [|split].
  - replace (S (length h)) with (length (h ++ [dense (last_occurrences predicate vs)]))
      by (rewrite length_app; simpl; lia).
    apply lookup_fresh.
  - rewrite <- app_assoc. now apply lookup_old.
  - apply last_occurrences_last.
Qed.

Lemma DistinctBy_last_occurrences_witness :
  [dense [number 1; number 2; number 3]] !! 0%nat = Some (dense [number 1; number 2; number 3]) /\
  lone_number (last_occurrences (fun v => number (number_or_zero v mod 2))
                 [number 1; number 2; number 3]) = false /\
  (length (last_occurrences (fun v => number (number_or_zero v mod 2))
             [number 1; number 2; number 3])
   <= @construct_limit sample_host)%nat /\
  exists (r : ref) (h' : heap),
    DistinctBy (host := sample_host) (fun v => number (number_or_zero v mod 2)) 0%nat
      [dense [number 1; number 2; number 3]] = (Ret r, h') /\
    h' !! r = Some (dense [number 3; number 2]).
Proof.
  assert (Hlen : (length (last_occurrences (fun v => number (number_or_zero v mod 2))
                            [number 1; number 2; number 3])
                  <= @construct_limit sample_host)%nat) by (vm_compute; lia).
  split; [reflexivity|]. split; [reflexivity|]. split; [exact Hlen|].
  destruct (DistinctBy_last_occurrences (host := sample_host)
              (fun v => number (number_or_zero v mod 2))
              [dense [number 1; number 2; number 3]] 0%nat [number 1; number 2; number 3]
              eq_refl eq_refl Hlen) as (r & h' & Hrun & _ & Hresult & _).
  exists r, h'. split; [exact Hrun | exact Hresult].
Defined.

(** ** [AsLinq], when the copy does not go wrong *)

(** Unless the source holds a single number, or more elements than the
    constructor takes arguments (the limit of the host), [AsLinq] returns a
    new sequence with the elements of the source, in order and as many, an
    empty slot of the source becoming [undefined]; the source is left as it
    was. *)
Theorem AsLinq_copies {host : Host} (h : heap) (arr : ref) (a : array) :
  h !! arr = Some a ->
  lone_number (iterate a) = false ->
  (length a <= construct_limit)%nat ->
  exists (r : ref) (h' : heap),
    AsLinq arr h = (Ret r, h') /\
    h !! r = None /\
    h' !! r = Some (dense (iterate a)) /\
    length (dense (iterate a)) = length a /\
    (forall vs, a = dense vs -> dense (iterate a) = a) /\
    h' !! arr = Some a.
Proof.
  intros Harr Hlone Hlen. exists (length h), (h ++ [dense (iterate a)]).
  split; [now apply AsLinq_run|].
  split; [apply lookup_ge_None; lia|].
  split; [apply lookup_fresh|].
  split; [unfold dense, iterate; now rewrite !length_map|].
  split; [intros vs ->; now rewrite iterate_dense | now apply lookup_old].
Qed.

Lemma AsLinq_copies_witness :
  [sample_numbers] !! 0%nat = Some sample_numbers /\
  lone_number (iterate sample_numbers) = false /\
  (length sample_numbers <= @construct_limit sample_host)%nat /\
  exists (r : ref) (h' : heap),
    AsLinq (host := sample_host) 0%nat [sample_numbers] = (Ret r, h') /\
    h' !! r = Some sample_numbers.
Proof.
  assert (Hlen : (length sample_numbers <= @construct_limit sample_host)%nat)
    by (vm_compute; lia).
  split; [reflexivity|]. split; [reflexivity|]. split; [exact Hlen|].
  destruct (AsLinq_copies (host := sample_host) [sample_numbers] 0%nat sample_numbers
              eq_refl eq_refl Hlen)
    as (r & h' & Hrun & _ & Hresult & _).
  exists r, h'. split; [exact Hrun | exact Hresult].
Defined.

(** ** The methods that mutate *)



(** [Add] is not one of the methods that leave the store unmodified. *)
Example Add_modifies_receiver : ~ unmodified (Add (number 1) 0%nat) [[]].
Proof. intros Hframe. specialize (Hframe 0%nat [] eq_refl). discriminate Hframe. Qed.

(** ** Beyond the limits of the host *)

(** A source of more elements than the constructor takes arguments makes
    [AsLinq] throw a [RangeError] and create nothing; more items than [push]
    takes arguments make [AddRange] throw a [RangeError] and append nothing.
    The store is left as it was. *)
Theorem calls_beyond_the_limit {host : Host} (h : heap) (this arr : ref)
    (a items : array) :
  h !! this = Some a ->
  h !! arr = Some items ->
  ((construct_limit < length items)%nat -> AsLinq arr h = (Throw RangeError, h)) /\
  ((push_limit < length items)%nat -> AddRange arr this h = (Throw RangeError, h)).
Proof.
  intros Hthis Harr. split; intros Hlen.
  - now apply (AsLinq_beyond _ _ items).
  - unfold AddRange. rewrite (bind_load _ _ _ _ Harr).
    now rewrite (spread_beyond _ _ Hlen).
Qed.

Lemma calls_beyond_the_limit_witness :
  [sample_numbers; long_array] !! 0%nat = Some sample_numbers /\
  [sample_numbers; long_array] !! 1%nat = Some long_array /\
  (@construct_limit sample_host < length long_array)%nat /\
  (@push_limit sample_host < length long_array)%nat /\
  AsLinq (host := sample_host) 1%nat [sample_numbers; long_array]
    = (Throw RangeError, [sample_numbers; long_array]) /\
  AddRange (host := sample_host) 1%nat 0%nat [sample_numbers; long_array]
    = (Throw RangeError, [sample_numbers; long_array]).
Proof.
  assert (Hlen : (1000 < length long_array)%nat) by (vm_compute; lia).
  split; [reflexivity|]. split; [reflexivity|].
  split; [exact Hlen|]. split; [exact Hlen|].
  destruct (calls_beyond_the_limit (host := sample_host) [sample_numbers; long_array]
              0%nat 1%nat sample_numbers long_array eq_refl eq_refl)
    as [Hconstruct Hpush].
  split; [exact (Hconstruct Hlen) | exact (Hpush Hlen)].
Defined.

(** ** [Where], [Select], [SelectMany] *)

Lemma length_present (a : array) : (length (present a) <= length a)%nat.
Proof. induction a as [|[v|] a IH]; simpl; lia. Qed.

(** [Where] returns a new sequence with exactly the elements that satisfy the
    predicate, in their order, and no more elements than the receiver has;
    [Select] returns a new sequence of the same length, the projection of
    each element at the place of the element; [SelectMany] returns the
    concatenation of the projections, and its length is the sum of theirs. *)
Theorem Where_Select_SelectMany (h : heap) (this : ref) (a : array) :
  h !! this = Some a ->
  (forall p, exists result,
     Where p this h = (Ret (length h), h ++ [result]) /\
     result = dense (List.filter p (present a)) /\
     (length result <= length a)%nat) /\
  (forall f, exists result,
     Select f this h = (Ret (length h), h ++ [result]) /\
     length result = length a /\
     (forall i, result !! i = option_map f <$> a !! i)) /\
  (forall f, exists result,
     SelectMany f this h = (Ret (length h), h ++ [result]) /\
     result = dense (concat (map (fun x => present (f x)) (present a))) /\
     length result = list_sum (map (fun x => length (present (f x))) (present a))).
Proof.
  intros Hthis. repeat apply conj; intros.
  - exists (array_filter p a). split; [|split; [reflexivity|]].
    + unfold Where. now rewrite (bind_load _ _ _ _ Hthis).
    + unfold array_filter, dense. rewrite length_map.
      etransitivity; [apply List.filter_length_le | apply length_present].
  - exists (array_map f a). split; [|split].
    + unfold Select. now rewrite (bind_load _ _ _ _ Hthis).
    + unfold array_map. apply length_map.
    + intros i. unfold array_map. apply list_lookup_fmap.
  - exists (array_flatMap f a). split; [|split].
    + unfold SelectMany. now rewrite (bind_load _ _ _ _ Hthis).
    + unfold array_flatMap. now rewrite flat_map_concat_map.
    + unfold array_flatMap, dense. rewrite length_map.
      induction (present a) as [|x l IH]; simpl; [reflexivity|].
      now rewrite length_app, IH.
Qed.

Lemma Where_Select_SelectMany_witness :
  [sample_numbers] !! 0%nat = Some sample_numbers /\
  exists result,
    Where (fun v => 1 <? number_or_zero v) 0%nat [sample_numbers]
      = (Ret 1%nat, [sample_numbers] ++ [result]) /\
    result = dense [number 3; number 2].
Proof.
  split; [reflexivity|].
  destruct (proj1 (Where_Select_SelectMany [sample_numbers] 0%nat sample_numbers eq_refl)
              (fun v => 1 <? number_or_zero v)) as (result & Hrun & Hresult & _).
  exists result. split; [exact Hrun | exact Hresult].
Defined.

(** ** [Skip] *)

Lemma array_slice_to_end (n : Z) (a : array) :
  array_slice n (Z.of_nat (length a)) a
  = skipn (Z.to_nat (relative_index n (Z.of_nat (length a)))) a.
Proof.
  unfold array_slice. cbv zeta. apply firstn_all2. rewrite length_skipn.
  unfold relative_index.
  destruct (Z.ltb_spec n 0), (Z.ltb_spec (Z.of_nat (length a)) 0); lia.
Qed.

(** [Skip n] returns a new sequence: for [0 <= n], what remains of the
    receiver after its first [min n (length a)] elements; for [n < 0], its
    last [min (-n) (length a)] elements. *)
Theorem Skip_contents (h : heap) (this : ref) (a : array) (n : Z) :
  h !! this = Some a ->
  exists result : array,
    Skip n this h = (Ret (length h), h ++ [result]) /\
    (0 <= n -> result = skipn (Z.to_nat (Z.min n (Z.of_nat (length a)))) a) /\
    (n < 0 -> result = skipn (Z.to_nat (Z.max (Z.of_nat (length a) + n) 0)) a).
Proof.
  intros Hthis. exists (array_slice n (Z.of_nat (length a)) a). split; [|split].
  - unfold Skip. now rewrite (bind_load _ _ _ _ Hthis).
  - intros Hn. rewrite array_slice_to_end. unfold relative_index.
    now destruct (Z.ltb_spec n 0); [lia|].
  - intros Hn. rewrite array_slice_to_end. unfold relative_index.
    now destruct (Z.ltb_spec n 0); [|lia].
Qed.

Lemma Skip_contents_witness :
  [sample_numbers] !! 0%nat = Some sample_numbers /\
  exists result : array,
    Skip (-1) 0%nat [sample_numbers] = (Ret 1%nat, [sample_numbers] ++ [result]) /\
    (-1 < 0 -> result = dense [number 2]).
Proof.
  split; [reflexivity|].
  destruct (Skip_contents [sample_numbers] 0%nat sample_numbers (-1) eq_refl)
    as (result & Hrun & _ & Hresult).
  exists result. split; [exact Hrun | exact Hresult].
Defined.

(** ** [FirstOrDefault], [Any], [Count], [ToArray] *)

(** [FirstOrDefault] makes the search of [First] and returns [undefined]
    where nothing is found; [Any] tells whether an element satisfies the
    predicate (whether there is a slot at all, when it is omitted); [Count]
    is the number of slots; [ToArray] returns a new array with the elements
    of the receiver, an empty slot becoming [undefined].  None of them
    changes the store, but for the array [ToArray] creates. *)
Theorem FirstOrDefault_Any_Count_ToArray (h : heap) (this : ref) (a : array) :
  h !! this = Some a ->
  (forall p, FirstOrDefault p this h = (Ret (default undefined (head (matching p a))), h)) /\
  (forall p : value -> bool,
     exists b, Any (Some p) this h = (Ret b, h) /\
               (b = true <-> exists x, In x (present a) /\ p x = true)) /\
  (exists b, Any None this h = (Ret b, h) /\ (b = true <-> a <> [])) /\
  Count this h = (Ret (Z.of_nat (length a)), h) /\
  ToArray this h = (Ret (length h), h ++ [dense (iterate a)]) /\
  length (dense (iterate a)) = length a.
Proof.
  intros Hthis. repeat apply conj.
  - intros p. now apply FirstOrDefault_run.
  - intros p. exists (array_some p a). split.
    + unfold Any. now rewrite (bind_load _ _ _ _ Hthis).
    + unfold array_some. apply existsb_exists.
  - exists (0 <? Z.of_nat (length a)). split.
    + unfold Any. now rewrite (bind_load _ _ _ _ Hthis).
    + destruct a; simpl; [split; [discriminate | congruence]|].
      split; [discriminate | intros _; apply Z.ltb_lt; lia].
  - unfold Count. now rewrite (bind_load _ _ _ _ Hthis).
  - unfold ToArray. now rewrite (bind_load _ _ _ _ Hthis).
  - unfold dense, iterate. now rewrite !length_map.
Qed.

Lemma FirstOrDefault_Any_Count_ToArray_witness :
  [sample_numbers] !! 0%nat = Some sample_numbers /\
  Count 0%nat [sample_numbers] = (Ret 3, [sample_numbers]).
Proof.
  split; [reflexivity|].
  exact (proj1 (proj2 (proj2 (proj2
           (FirstOrDefault_Any_Count_ToArray [sample_numbers] 0%nat sample_numbers eq_refl))))).
Defined.

(** ** The outcome of [OrderBy] does not depend on the sorting algorithm *)

Lemma sorted_permutation_unique {A : Type} (R : A -> A -> Prop) (l1 l2 : list A) :
  (forall x y, In x l1 -> In y l1 -> R x y -> R y x -> x = y) ->
  StronglySorted R l1 -> StronglySorted R l2 -> Permutation l1 l2 -> l1 = l2.
Proof.
  intros Hanti Hs1. revert l2.
  induction Hs1 as [|x l1 Hs1 IH Hx]; intros l2 Hs2 Hperm.
  - now apply Permutation_nil in Hperm.
  - destruct Hs2 as [|y l2 Hs2 Hy].
    + symmetry in Hperm. now apply Permutation_nil in Hperm.
    + assert (Hxy : x = y).
      { assert (Hx2 : In x (y :: l2)) by (apply (Permutation_in _ Hperm); now left).
        assert (Hy1 : In y (x :: l1))
          by (apply (Permutation_in _ (Permutation_sym Hperm)); now left).
        destruct Hx2 as [->|Hx2]; [reflexivity|].
        destruct Hy1 as [->|Hy1]; [reflexivity|].
        rewrite List.Forall_forall in Hx, Hy.
        apply Hanti; [now left | now right | now apply Hx | now apply Hy]. }
      subst y. f_equal. apply IH; [|exact Hs2|].
      * intros a b Ha Hb. apply Hanti; now right.
      * now apply Permutation_cons_inv in Hperm.
Qed.

(** When no two elements of the receiver have keys that [>] fails to tell
    apart, the receiver after [OrderBy] is the only permutation of its values
    with non-decreasing keys: any sorting algorithm that returns such a
    permutation returns what the model returns. *)
Theorem OrderBy_determined {K : Type} `{TotalGreater K} (predicate : value -> K)
    (h : heap) (this : ref) (vs candidate : list value) :
  h !! this = Some (dense vs) ->
  Forall (fun v => is_undefined v = false) vs ->
  (forall x y, In x vs -> In y vs ->
     greater (predicate x) (predicate y) = false ->
     greater (predicate y) (predicate x) = false -> x = y) ->
  Permutation vs candidate ->
  StronglySorted (fun x y => greater (predicate x) (predicate y) = false) candidate ->
  OrderBy predicate this h = (Ret this, <[this := dense candidate]> h).
Proof.
  intros Hthis Hdefined Hanti Hperm Hsorted.
  destruct (store_receiver
              (array_sort (fun a b => if greater (predicate a) (predicate b) then 1 else -1))
              this h this (dense vs) Hthis) as [Hrun _].
  destruct (array_sort_layout
              (fun a b => if greater (predicate a) (predicate b) then 1 else -1)
              (fun x y => greater (predicate x) (predicate y) = false) (dense vs))
    as (sorted & Hsort & Hperm' & _ & Hsorted' & Hdense).
  { intros x y. now destruct (greater (predicate x) (predicate y)). }
  { intros x y. destruct (greater (predicate x) (predicate y)) eqn:Hxy; [|discriminate].
    intros _. now apply greater_asym. }
  { intros x y z. apply greater_negtrans. }
  cbv zeta in *. unfold OrderBy. rewrite Hrun, Hsort, (Hdense vs eq_refl Hdefined).
  rewrite (Hdense vs eq_refl Hdefined) in Hperm'.
  assert (Hvs : Permutation vs sorted).
  { apply (Permutation_map read) in Hperm'.
    unfold dense in Hperm'. rewrite !map_map in Hperm'. simpl in Hperm'.
    now rewrite !map_id in Hperm'. }
  do 3 f_equal.
  apply (sorted_permutation_unique
           (fun x y => greater (predicate x) (predicate y) = false));
    [|exact Hsorted'|exact Hsorted|].
  - intros x y Hx Hy.
    apply Hanti; [exact (Permutation_in _ (Permutation_sym Hvs) Hx)
                 |exact (Permutation_in _ (Permutation_sym Hvs) Hy)].
  - now rewrite <- Hvs.
Qed.

Lemma OrderBy_determined_witness :
  [sample_numbers] !! 0%nat = Some sample_numbers /\
  OrderBy number_or_zero 0%nat [sample_numbers]
    = (Ret 0%nat, <[0%nat := dense [number 1; number 2; number 3]]> [sample_numbers]).
Proof.
  split; [reflexivity|].
  apply (OrderBy_determined number_or_zero [sample_numbers] 0%nat
           [number 3; number 1; number 2] [number 1; number 2; number 3]).
  - reflexivity.
  - repeat constructor.
  - intros x y Hx Hy.
    assert (Hnum : forall v, In v [number 3; number 1; number 2] ->
                     v = number (number_or_zero v)).
    { intros v [<-|[<-|[<-|[]]]]; reflexivity. }
    unfold greater, number_greater. rewrite !Z.gtb_ltb.
    intros Hxy%Z.ltb_ge Hyx%Z.ltb_ge.
    rewrite (Hnum x Hx), (Hnum y Hy). f_equal. lia.
  - apply perm_trans with [number 1; number 3; number 2];
      [apply perm_swap | apply perm_skip, perm_swap].
  - repeat constructor.
Defined.

(** ** A lone number *)

Lemma array_construct_length (n : Z) :
  array_construct [number n]
  = if (0 <=? n) && (n <=? 4294967295) then Ret (replicate (Z.to_nat n) None)
    else Throw RangeError.
Proof. reflexivity. Qed.

Lemma present_replicate_None (k : nat) : present (replicate k None) = [].
Proof. induction k as [|k IH]; [reflexivity | exact IH]. Qed.

Lemma AsLinq_length_run {host : Host} (h : heap) (arr : ref) (n : Z) :
  h !! arr = Some [Some (number n)] ->
  AsLinq arr h
  = if (0 <=? n) && (n <=? 4294967295)
    then (Ret (length h), h ++ [replicate (Z.to_nat n) None])
    else (Throw RangeError, h).
Proof.
  intros Harr. unfold AsLinq. rewrite (bind_load _ _ _ _ Harr). one_argument.
  change (iterate [Some (number n)]) with [number n].
  rewrite bind_lift_Ret, array_construct_length. now destruct ((0 <=? n) && (n <=? 4294967295)).
Qed.

Lemma length_in_range (n : Z) :
  0 <= n <= 4294967295 -> (0 <=? n) && (n <=? 4294967295) = true.
Proof. intros Hn. apply andb_true_iff. split; apply Z.leb_le; lia. Qed.

Lemma length_out_of_range (n : Z) :
  n < 0 \/ 4294967295 < n -> (0 <=? n) && (n <=? 4294967295) = false.
Proof.
  intros Hn. apply andb_false_iff.
  destruct Hn; [left | right]; apply Z.leb_gt; lia.
Qed.

(** The copy of an array that holds one number [n] and nothing else: for
    [0 <= n <= 2^32 - 1] a new array of length [n] without a single element,
    every index of which reads as [undefined]; for any other [n] a
    [RangeError], and no array is created. *)
Theorem AsLinq_lone_number {host : Host} (h : heap) (arr : ref) (n : Z) :
  h !! arr = Some [Some (number n)] ->
  (0 <= n <= 4294967295 ->
     exists result : array,
       AsLinq arr h = (Ret (length h), h ++ [result]) /\
       Z.of_nat (length result) = n /\
       present result = [] /\
       Forall (fun v => v = undefined) (iterate result)) /\
  (n < 0 \/ 4294967295 < n -> AsLinq arr h = (Throw RangeError, h)).
Proof.
  intros Harr. rewrite (AsLinq_length_run _ _ _ Harr). split.
  - intros Hn. exists (replicate (Z.to_nat n) None).
    rewrite (length_in_range _ Hn).
    split; [reflexivity|]. split; [rewrite length_replicate; lia|].
    split; [apply present_replicate_None|].
    unfold iterate. apply List.Forall_forall. intros v Hv.
    apply in_map_iff in Hv as (s & <- & Hs).
    apply list_elem_of_In, elem_of_replicate in Hs as [-> _]. reflexivity.
  - intros Hn. now rewrite (length_out_of_range _ Hn).
Qed.

Lemma AsLinq_lone_number_witness :
  [[Some (number 2)]] !! 0%nat = Some [Some (number 2)] /\
  0 <= 2 <= 4294967295 /\
  exists result : array,
    AsLinq (host := sample_host) 0%nat [[Some (number 2)]]
      = (Ret 1%nat, [[Some (number 2)]] ++ [result]) /\
    Z.of_nat (length result) = 2 /\
    present result = [] /\
    Forall (fun v => v = undefined) (iterate result).
Proof.
  assert (Hn : 0 <= 2 <= 4294967295) by lia.
  split; [reflexivity|]. split; [exact Hn|].
  exact (proj1 (AsLinq_lone_number (host := sample_host) [[Some (number 2)]] 0%nat 2
                  eq_refl) Hn).
Defined.

(** [Distinct] on a receiver whose values are all the same number [n] (the
    receiver [[7, 7, 7]], say): the number is lost.  For
    [0 <= n <= 2^32 - 1] the result is a new array of length [n] without a
    single element; for any other [n], [Distinct] throws a [RangeError].  The
    receiver is left as it was. *)
Theorem Distinct_lone_number {host : Host} (h : heap) (this : ref) (a : array) (n : Z) :
  h !! this = Some a ->
  first_occurrences same_value_zero (iterate a) = [number n] ->
  (0 <= n <= 4294967295 ->
     exists (r : ref) (h' : heap) (result : array),
       Distinct this h = (Ret r, h') /\
       h !! r = None /\
       h' !! r = Some result /\
       Z.of_nat (length result) = n /\
       present result = [] /\
       h' !! this = Some a) /\
  (n < 0 \/ 4294967295 < n ->
     exists h' : heap,
       Distinct this h = (Throw RangeError, h') /\ h' !! this = Some a).
Proof.
  intros Hthis Hone.
  assert (Hrun : Distinct this h = AsLinq (length h) (h ++ [[Some (number n)]])).
  { unfold Distinct. rewrite (bind_load _ _ _ _ Hthis), bind_alloc.
    now rewrite new_Set_first_occurrences, Hone. }
  rewrite Hrun, (AsLinq_length_run _ _ n (lookup_fresh _ _)).
  split.
  - intros Hn. rewrite (length_in_range _ Hn).
    exists (length (h ++ [[Some (number n)]])).
    exists ((h ++ [[Some (number n)]]) ++ [replicate (Z.to_nat n) None]).
    exists (replicate (Z.to_nat n) None).
    split; [reflexivity|]. split; [apply lookup_ge_None; rewrite length_app; simpl; lia|].
    split; [apply lookup_fresh|]. split; [rewrite length_replicate; lia|].
    split; [apply present_replicate_None|].
    rewrite <- app_assoc. now apply lookup_old.
  - intros Hn. rewrite (length_out_of_range _ Hn).
    exists (h ++ [[Some (number n)]]). split; [reflexivity | now apply lookup_old].
Qed.

Lemma Distinct_lone_number_witness :
  [dense [number 2; number 2; number 2]] !! 0%nat = Some (dense [number 2; number 2; number 2]) /\
  first_occurrences same_value_zero (iterate (dense [number 2; number 2; number 2]))
    = [number 2] /\
  0 <= 2 <= 4294967295 /\
  exists (r : ref) (h' : heap) (result : array),
    Distinct (host := sample_host) 0%nat [dense [number 2; number 2; number 2]]
      = (Ret r, h') /\
    h' !! r = Some result /\
    Z.of_nat (length result) = 2 /\
    present result = [].
Proof.
  assert (Hn : 0 <= 2 <= 4294967295) by lia.
  split; [reflexivity|]. split; [reflexivity|]. split; [exact Hn|].
  destruct (proj1 (Distinct_lone_number (host := sample_host)
                     [dense [number 2; number 2; number 2]] 0%nat
                     (dense [number 2; number 2; number 2]) 2 eq_refl eq_refl) Hn)
    as (r & h' & result & Hrun & _ & Hresult & Hlen & Hpresent & _).
  exists r, h', result. repeat split; assumption.
Defined.

(** ** When [GroupBy] throws, and what it keeps when it does not *)

Lemma group_step_Throw (predicate : value -> key) (items : list value) (e : error) :
  fold_left (group_step predicate) items (Throw e) = Throw e.
Proof. induction items as [|x items IH]; [reflexivity | exact IH]. Qed.

(** No own property of the groups ever has a name of [Object.prototype]. *)
Lemma own_inherited (o : object) (p : property_key) :
  Forall (fun q => inherited q = false) (map fst o) -> inherited p = true -> own o p = None.
Proof.
  induction o as [|[q arr] o IH]; simpl; intros Ho Hp; [reflexivity|].
  apply Forall_cons_1 in Ho as [Hq Ho].
  destruct (bool_decide_reflect (q = p)) as [->|_]; [congruence | now apply IH].
Qed.

Lemma group_add_not_inherited (predicate : value -> key) (groups : object) (item : value) :
  Forall (fun q => inherited q = false) (map fst groups) ->
  inherited (to_property_key (predicate item)) = false ->
  Forall (fun q => inherited q = false) (map fst (group_add predicate groups item)).
Proof.
  intros Hgroups Hitem. rewrite keys_group_add. apply Forall_app. split; [exact Hgroups|].
  destruct (own groups _); repeat constructor. exact Hitem.
Qed.

Lemma group_step_inherited (predicate : value -> key) (items : list value) (groups : object) :
  Forall (fun q => inherited q = false) (map fst groups) ->
  Exists (fun x => inherited (to_property_key (predicate x)) = true) items ->
  fold_left (group_step predicate) items (Ret groups) = Throw TypeError.
Proof.
  intros Hgroups Hitems. revert groups Hgroups.
  induction items as [|x items IH]; intros groups Hgroups; [now apply Exists_nil in Hitems|].
  simpl. destruct (inherited (to_property_key (predicate x))) eqn:Hx.
  - rewrite (own_inherited _ _ Hgroups Hx). apply group_step_Throw.
  - apply Exists_cons in Hitems as [Hbad|Hitems]; [congruence|].
    replace (match own groups (to_property_key (predicate x)) with
             | Some arr => Ret (set_own groups (to_property_key (predicate x)) (arr ++ [x]))
             | None => Ret (groups ++ [(to_property_key (predicate x), [x])])
             end) with (Ret (group_add predicate groups x))
      by (unfold group_add; now destruct (own groups _)).
    apply (IH Hitems). now apply group_add_not_inherited.
Qed.

Lemma GroupBy_inherited (predicate : value -> key) (items : list value) :
  Exists (fun x => inherited (to_property_key (predicate x)) = true) items ->
  fold_left (group_step predicate) items (Ret []) = Throw TypeError.
Proof. intros Hitems. apply group_step_inherited; [constructor | exact Hitems]. Qed.

Lemma all_or_some {A : Type} (p : A -> bool) (l : list A) :
  Forall (fun x => p x = false) l \/ Exists (fun x => p x = true) l.
Proof.
  induction l as [|x l [IH|IH]].
  - left. constructor.
  - destruct (p x) eqn:Hx; [right; now left | left; now constructor].
  - right. now right.
Qed.

Lemma GroupBy_run (predicate : value -> key) (h : heap) (this : ref) (a : array) :
  h !! this = Some a ->
  GroupBy predicate this h = (fold_left (group_step predicate) (present a) (Ret []), h).
Proof. intros Hthis. unfold GroupBy. now rewrite (bind_load _ _ _ _ Hthis). Qed.

(** [GroupBy] throws exactly when the key of some element names a member of
    [Object.prototype] (["constructor"], ["toString"], ["__proto__"], ...),
    and then it throws a [TypeError]; it returns exactly when no key does.
    Either way the store is left as it was. *)
Theorem GroupBy_throws_iff (predicate : value -> key) (h : heap) (this : ref) (a : array) :
  h !! this = Some a ->
  (GroupBy predicate this h = (Throw TypeError, h) <->
     Exists (fun x => inherited (to_property_key (predicate x)) = true) (present a)) /\
  ((exists groups, GroupBy predicate this h = (Ret groups, h)) <->
     Forall (fun x => inherited (to_property_key (predicate x)) = false) (present a)).
Proof.
  intros Hthis. rewrite (GroupBy_run _ _ _ _ Hthis).
  destruct (all_or_some (fun x => inherited (to_property_key (predicate x))) (present a))
    as [Hnone|Hsome].
  - rewrite (group_step_fold _ _ _ Hnone). split; split.
    + intros [=].
    + intros Hsome. exfalso. apply List.Exists_exists in Hsome as (x & Hx & Hbad).
      rewrite List.Forall_forall in Hnone. specialize (Hnone x Hx). congruence.
    + intros _. exact Hnone.
    + intros _. eexists. reflexivity.
  - rewrite (GroupBy_inherited _ _ Hsome). split; split.
    + intros _. exact Hsome.
    + reflexivity.
    + intros [groups [=]].
    + intros Hnone. exfalso. apply List.Exists_exists in Hsome as (x & Hx & Hbad).
      rewrite List.Forall_forall in Hnone. specialize (Hnone x Hx). congruence.
Qed.

Lemma GroupBy_throws_iff_witness :
  [dense [str "a"; str "toString"]] !! 0%nat = Some (dense [str "a"; str "toString"]) /\
  (GroupBy self_key 0%nat [dense [str "a"; str "toString"]]
     = (Throw TypeError, [dense [str "a"; str "toString"]]) <->
   Exists (fun x => inherited (to_property_key (self_key x)) = true)
     (present (dense [str "a"; str "toString"]))).
Proof.
  split; [reflexivity|].
  exact (proj1 (GroupBy_throws_iff self_key [dense [str "a"; str "toString"]] 0%nat
                  (dense [str "a"; str "toString"]) eq_refl)).
Defined.

Lemma concat_set_own (o : object) (p : property_key) (arr : list value) (x : value) :
  own o p = Some arr ->
  Permutation (concat (map snd (set_own o p (arr ++ [x])))) (x :: concat (map snd o)).
Proof.
  induction o as [|[q old] o IH]; simpl; [discriminate|].
  destruct (bool_decide (q = p)); simpl.
  - intros [= ->]. rewrite <- app_assoc. simpl.
    symmetry. apply Permutation_middle.
  - intros Hown. rewrite (IH Hown). symmetry. apply Permutation_middle.
Qed.

Lemma concat_group_add (predicate : value -> key) (groups : object) (item : value) :
  Permutation (concat (map snd (group_add predicate groups item)))
    (item :: concat (map snd groups)).
Proof.
  unfold group_add. cbv zeta.
  destruct (own groups (to_property_key (predicate item))) as [arr|] eqn:Hown.
  - now apply concat_set_own.
  - rewrite map_app, concat_app. simpl. symmetry. apply Permutation_cons_append.
Qed.

Lemma concat_groups (predicate : value -> key) (items : list value) :
  Permutation (concat (map snd (fold_left (group_add predicate) items []))) items.
Proof.
  induction items as [|x items IH] using rev_ind; [reflexivity|].
  rewrite fold_left_app. simpl. rewrite concat_group_add, IH.
  apply Permutation_cons_append.
Qed.

Lemma distinct_NoDup {A : Type} `{EqDecision A} (l : list A) :
  ForallOrdPairs (fun x y => bool_decide (x = y) = false) l -> List.NoDup l.
Proof.
  induction 1 as [|x l Hx _ IH]; constructor; [|exact IH].
  intros Hin. rewrite List.Forall_forall in Hx. specialize (Hx x Hin).
  now rewrite bool_decide_eq_true_2 in Hx.
Qed.

Lemma own_In (o : object) (p : property_key) (members : list value) :
  List.NoDup (map fst o) -> In (p, members) o -> own o p = Some members.
Proof.
  induction o as [|[q arr] o IH]; simpl; intros Hnodup Hin; [destruct Hin|].
  apply List.NoDup_cons_iff in Hnodup as [Hq Hnodup].
  destruct Hin as [[= -> ->]|Hin].
  - now rewrite bool_decide_eq_true_2.
  - rewrite bool_decide_eq_false_2; [now apply IH|].
    intros ->. apply Hq. apply in_map_iff. now exists (p, members).
Qed.

Lemma sizes_add_up (o : object) :
  list_sum (map (fun group => length group.2) o) = length (concat (map snd o)).
Proof.
  induction o as [|[p members] o IH]; simpl; [reflexivity|].
  now rewrite length_app, IH.
Qed.

(** When [GroupBy] returns, and the keys that are numbers are safe integers
    (of magnitude at most 2^53 - 1, which the host spells in plain decimal
    digits), the groups partition the elements of the receiver: no key has
    two groups, every group is the non-empty list of the elements of its key
    in the order of the receiver, and the groups together hold each element
    of the receiver once, so their sizes add up to the number of elements
    (empty slots do not count). *)
Theorem GroupBy_partition (predicate : value -> key) (h h' : heap) (this : ref) (a : array)
    (groups : object) :
  h !! this = Some a ->
  Forall (fun x => safe_key (predicate x) = true) (present a) ->
  GroupBy predicate this h = (Ret groups, h') ->
  List.NoDup (map fst groups) /\
  Forall (fun group =>
            group.2 <> [] /\
            group.2 = List.filter
                        (fun x => bool_decide (to_property_key (predicate x) = group.1))
                        (present a))
    groups /\
  Permutation (concat (map snd groups)) (present a) /\
  list_sum (map (fun group => length group.2) groups) = length (present a).
Proof.
  intros Hthis _ Hrun. rewrite (GroupBy_run _ _ _ _ Hthis) in Hrun.
  destruct (all_or_some (fun x => inherited (to_property_key (predicate x))) (present a))
    as [Hnone|Hsome];
    [|now rewrite (GroupBy_inherited _ _ Hsome) in Hrun].
  rewrite (group_step_fold _ _ _ Hnone) in Hrun. injection Hrun as <- _.
  assert (Hnodup : List.NoDup (map fst (fold_left (group_add predicate) (present a) []))).
  { rewrite keys_groups. apply distinct_NoDup.
    apply first_occurrences_after_distinct.
    intros p q. apply bool_decide_ext. split; congruence. }
  assert (Hperm := concat_groups predicate (present a)).
  split; [exact Hnodup|]. split; [|split; [exact Hperm|]].
  - apply List.Forall_forall. intros [p members] Hin. simpl.
    pose proof (own_In _ _ _ Hnodup Hin) as Hown. rewrite own_groups in Hown.
    destruct (List.filter _ (present a)) as [|x rest]; [discriminate|].
    injection Hown as <-. split; [discriminate | reflexivity].
  - rewrite <- (Permutation_length Hperm). apply sizes_add_up.
Qed.

Lemma GroupBy_partition_witness :
  [dense [str "b"; str "a"; str "b"]] !! 0%nat = Some (dense [str "b"; str "a"; str "b"]) /\
  Forall (fun x => safe_key (self_key x) = true)
    (present (dense [str "b"; str "a"; str "b"])) /\
  GroupBy self_key 0%nat [dense [str "b"; str "a"; str "b"]]
    = (Ret [(NameKey "b", [str "b"; str "b"]); (NameKey "a", [str "a"])],
       [dense [str "b"; str "a"; str "b"]]) /\
  Permutation
    (concat (map snd [(NameKey "b", [str "b"; str "b"]); (NameKey "a", [str "a"])]))
    (present (dense [str "b"; str "a"; str "b"])).
Proof.
  assert (Hsafe : Forall (fun x => safe_key (self_key x) = true)
                    (present (dense [str "b"; str "a"; str "b"])))
    by (repeat constructor).
  split; [reflexivity|]. split; [exact Hsafe|]. split; [reflexivity|].
  exact (proj1 (proj2 (proj2
           (GroupBy_partition self_key [dense [str "b"; str "a"; str "b"]]
              [dense [str "b"; str "a"; str "b"]] 0%nat (dense [str "b"; str "a"; str "b"])
              [(NameKey "b", [str "b"; str "b"]); (NameKey "a", [str "a"])]
              eq_refl Hsafe eq_refl)))).
Defined.

(** ** When [DistinctBy] throws a [TypeError] *)

Lemma holes_or_dense (a : array) : In None a \/ a = dense (present a).
Proof.
  induction a as [|[v|] a [IH|IH]]; simpl.
  - now right.
  - left. now right.
  - right. now rewrite <- IH.
  - left. now left.
  - left. now left.
Qed.

Lemma dense_no_hole (vs : list value) : ~ In None (dense vs).
Proof. unfold dense. intros Hin. apply in_map_iff in Hin as (v & [=] & _). Qed.

Lemma new_Map_from_hole {A : Type} (f : A -> value * value) (a : list (option A))
    (m : list (value * value)) :
  In None a -> new_Map_from m (array_map f a) = Throw TypeError.
Proof.
  revert m. induction a as [|[x|] a IH]; simpl; intros m Hin.
  - destruct Hin.
  - destruct Hin as [[=]|Hin]. destruct (f x) as [k v]. now apply IH.
  - reflexivity.
Qed.

Lemma new_Map_dense (predicate : value -> value) (vs : list value) :
  new_Map (array_map (fun i => (predicate i, i)) (dense vs)) = Ret (build_map predicate vs).
Proof.
  unfold new_Map, array_map, dense. rewrite map_map. simpl.
  rewrite <- (map_map (entry_of predicate) Some). apply new_Map_from_dense.
Qed.

Lemma array_construct_throws (args : list value) (e : error) :
  array_construct args = Throw e -> e = RangeError.
Proof.
  destruct args as [|[[ | |b|n|s|id]|addr fields] [|v args]]; simpl; try discriminate.
  destruct ((0 <=? n) && (n <=? 4294967295)); [discriminate | now intros [= <-]].
Qed.

Lemma spread_throws (limit : nat) (a : array) (e : error) :
  spread limit a = Throw e -> e = RangeError.
Proof.
  unfold spread. destruct (length a <=? limit)%nat; [discriminate | now intros [= <-]].
Qed.

Lemma AsLinq_throws {host : Host} (h : heap) (arr : ref) (a : array) (e : error) :
  h !! arr = Some a -> fst (AsLinq arr h) = Throw e -> e = RangeError.
Proof.
  intros Harr. unfold AsLinq. rewrite (bind_load _ _ _ _ Harr).
  destruct (spread construct_limit a) as [args|e'] eqn:Hs.
  - rewrite bind_lift_Ret.
    destruct (array_construct args) as [elements|e'] eqn:Hc.
    + rewrite bind_lift_Ret. discriminate.
    + rewrite bind_lift_Throw. simpl. intros [= <-].
      now apply array_construct_throws in Hc.
  - rewrite bind_lift_Throw. simpl. intros [= <-]. now apply spread_throws in Hs.
Qed.

(** [DistinctBy] throws a [TypeError] exactly when its receiver has an empty
    slot, whatever the key selector: the entry [this.map] leaves empty is not
    an entry [new Map] accepts.  The store is then left as it was. *)
Theorem DistinctBy_TypeError_iff {host : Host} (predicate : value -> value) (h : heap)
    (this : ref) (a : array) :
  h !! this = Some a ->
  (fst (DistinctBy predicate this h) = Throw TypeError <-> In None a) /\
  (In None a -> DistinctBy predicate this h = (Throw TypeError, h)).
Proof.
  intros Hthis.
  assert (Hhole : In None a -> DistinctBy predicate this h = (Throw TypeError, h)).
  { intros Hin. unfold DistinctBy. rewrite (bind_load _ _ _ _ Hthis).
    unfold new_Map. now rewrite (new_Map_from_hole _ _ _ Hin). }
  split; [|exact Hhole]. split; [|intros Hin; now rewrite (Hhole Hin)].
  destruct (holes_or_dense a) as [Hin|Hdense]; [now intros _|].
  intros Hthrows. exfalso. revert Hthrows. unfold DistinctBy.
  rewrite (bind_load _ _ _ _ Hthis), Hdense, new_Map_dense, bind_lift_Ret, bind_alloc.
  intros Hthrows. apply (AsLinq_throws _ _ _ _ (lookup_fresh _ _)) in Hthrows.
  discriminate Hthrows.
Qed.

Lemma DistinctBy_TypeError_iff_witness :
  [[Some (number 1); None]] !! 0%nat = Some [Some (number 1); None] /\
  In None [Some (number 1); None] /\
  DistinctBy (host := sample_host) (fun v => v) 0%nat [[Some (number 1); None]]
    = (Throw TypeError, [[Some (number 1); None]]).
Proof.
  assert (Hin : In None [Some (number 1); @None value]) by (right; now left).
  split; [reflexivity|]. split; [exact Hin|].
  exact (proj2 (DistinctBy_TypeError_iff (host := sample_host) (fun v => v)
                  [[Some (number 1); None]] 0%nat
                  [Some (number 1); None] eq_refl) Hin).
Defined.

(** ** Chains of [Take] and [Skip] *)

Lemma Take_run (h : heap) (r : ref) (a : array) (n : Z) :
  h !! r = Some a -> Take n r h = (Ret (length h), h ++ [array_slice 0 n a]).
Proof. intros Hr. unfold Take. now rewrite (bind_load _ _ _ _ Hr). Qed.

Lemma Skip_run (h : heap) (r : ref) (a : array) (n : Z) :
  h !! r = Some a ->
  Skip n r h = (Ret (length h), h ++ [array_slice n (Z.of_nat (length a)) a]).
Proof. intros Hr. unfold Skip. now rewrite (bind_load _ _ _ _ Hr). Qed.

Lemma slice_take (n : Z) (a : array) :
  0 <= n -> array_slice 0 n a = firstn (Z.to_nat n) a.
Proof.
  intros Hn. rewrite array_slice_prefix by exact Hn.
  destruct (Z.le_gt_cases n (Z.of_nat (length a))) as [Hle|Hgt].
  - now rewrite Z.min_l.
  - rewrite Z.min_r by lia. rewrite !firstn_all2 by lia. reflexivity.
Qed.

Lemma slice_drop (n : Z) (a : array) :
  0 <= n -> array_slice n (Z.of_nat (length a)) a = skipn (Z.to_nat n) a.
Proof.
  intros Hn. rewrite array_slice_to_end. unfold relative_index.
  destruct (Z.ltb_spec n 0); [lia|].
  destruct (Z.le_gt_cases n (Z.of_nat (length a))) as [Hle|Hgt].
  - now rewrite Z.min_l.
  - rewrite Z.min_r by lia. rewrite !skipn_all2 by lia. reflexivity.
Qed.

(** For counts [n, m >= 0], on any receiver: [Skip n] followed by [Take m] is
    the page of [m] elements that starts at index [n]; [Take n] followed by
    [Take m] takes [min n m] elements; [Skip n] followed by [Skip m] skips
    [n + m] elements.  The receiver is left as it was. *)
Theorem Take_Skip_chains (h : heap) (this : ref) (a : array) (n m : Z) :
  h !! this = Some a ->
  0 <= n ->
  0 <= m ->
  (exists (r1 r2 : ref) (h1 h2 : heap),
     Skip n this h = (Ret r1, h1) /\ Take m r1 h1 = (Ret r2, h2) /\
     h2 !! r2 = Some (firstn (Z.to_nat m) (skipn (Z.to_nat n) a)) /\
     h2 !! this = Some a) /\
  (exists (r1 r2 : ref) (h1 h2 : heap),
     Take n this h = (Ret r1, h1) /\ Take m r1 h1 = (Ret r2, h2) /\
     h2 !! r2 = Some (firstn (Z.to_nat (Z.min n m)) a) /\
     h2 !! this = Some a) /\
  (exists (r1 r2 : ref) (h1 h2 : heap),
     Skip n this h = (Ret r1, h1) /\ Skip m r1 h1 = (Ret r2, h2) /\
     h2 !! r2 = Some (skipn (Z.to_nat (n + m)) a) /\
     h2 !! this = Some a).
Proof.
  intros Hthis Hn Hm. repeat apply conj.
  - eexists _, _, _, _.
    split; [apply (Skip_run _ _ _ _ Hthis)|].
    split; [apply (Take_run _ _ _ _ (lookup_fresh _ _))|].
    split; [|rewrite <- app_assoc; now apply lookup_old].
    rewrite lookup_fresh. f_equal.
    now rewrite slice_take, slice_drop.
  - eexists _, _, _, _.
    split; [apply (Take_run _ _ _ _ Hthis)|].
    split; [apply (Take_run _ _ _ _ (lookup_fresh _ _))|].
    split; [|rewrite <- app_assoc; now apply lookup_old].
    rewrite lookup_fresh. f_equal.
    rewrite !slice_take by lia. rewrite firstn_firstn. f_equal. lia.
  - eexists _, _, _, _.
    split; [apply (Skip_run _ _ _ _ Hthis)|].
    split; [apply (Skip_run _ _ _ _ (lookup_fresh _ _))|].
    split; [|rewrite <- app_assoc; now apply lookup_old].
    rewrite lookup_fresh. f_equal.
    rewrite !slice_drop by lia. rewrite skipn_skipn. f_equal. lia.
Qed.

Lemma Take_Skip_chains_witness :
  [sample_numbers] !! 0%nat = Some sample_numbers /\
  0 <= 1 /\
  0 <= 1 /\
  exists (r1 r2 : ref) (h1 h2 : heap),
    Skip 1 0%nat [sample_numbers] = (Ret r1, h1) /\ Take 1 r1 h1 = (Ret r2, h2) /\
    h2 !! r2 = Some (firstn (Z.to_nat 1) (skipn (Z.to_nat 1) sample_numbers)) /\
    h2 !! 0%nat = Some sample_numbers.
Proof.
  assert (H0 : 0 <= 1) by lia.
  split; [reflexivity|]. split; [exact H0|]. split; [exact H0|].
  exact (proj1 (Take_Skip_chains [sample_numbers] 0%nat sample_numbers 1 1 eq_refl H0 H0)).
Defined.

(** ** Chains of [Where] and [Select], and [Where] before [First] and [Any] *)

Lemma Where_run (h : heap) (r : ref) (a : array) (p : value -> bool) :
  h !! r = Some a -> Where p r h = (Ret (length h), h ++ [array_filter p a]).
Proof. intros Hr. unfold Where. now rewrite (bind_load _ _ _ _ Hr). Qed.

Lemma Select_run (h : heap) (r : ref) (a : array) (f : value -> value) :
  h !! r = Some a -> Select f r h = (Ret (length h), h ++ [array_map f a]).
Proof. intros Hr. unfold Select. now rewrite (bind_load _ _ _ _ Hr). Qed.

Lemma filter_filter {A : Type} (p q : A -> bool) (l : list A) :
  List.filter q (List.filter p l) = List.filter (fun x => p x && q x) l.
Proof.
  induction l as [|x l IH]; simpl; [reflexivity|].
  destruct (p x); simpl; [|exact IH]. destruct (q x); now rewrite IH.
Qed.

Lemma present_array_map (f : value -> value) (a : array) :
  present (array_map f a) = map f (present a).
Proof.
  induction a as [|[v|] a IH]; simpl; [reflexivity| |exact IH]. now rewrite IH.
Qed.

(** Two filters in a row filter by the conjunction; two projections in a row
    project by the composition, empty slots staying where they are; a filter
    after a projection keeps the projections that satisfy the predicate. *)
Theorem Where_Select_chains (h : heap) (this : ref) (a : array) :
  h !! this = Some a ->
  (forall p q, exists (r1 r2 : ref) (h1 h2 : heap),
     Where p this h = (Ret r1, h1) /\ Where q r1 h1 = (Ret r2, h2) /\
     h2 !! r2 = Some (dense (List.filter (fun x => p x && q x) (present a)))) /\
  (forall f g, exists (r1 r2 : ref) (h1 h2 : heap),
     Select f this h = (Ret r1, h1) /\ Select g r1 h1 = (Ret r2, h2) /\
     h2 !! r2 = Some (map (option_map (fun x => g (f x))) a)) /\
  (forall f p, exists (r1 r2 : ref) (h1 h2 : heap),
     Select f this h = (Ret r1, h1) /\ Where p r1 h1 = (Ret r2, h2) /\
     h2 !! r2 = Some (dense (List.filter p (map f (present a))))).
Proof.
  intros Hthis. repeat apply conj; intros.
  - eexists _, _, _, _.
    split; [apply (Where_run _ _ _ _ Hthis)|].
    split; [apply (Where_run _ _ _ _ (lookup_fresh _ _))|].
    rewrite lookup_fresh. f_equal. unfold array_filter.
    now rewrite present_dense, filter_filter.
  - eexists _, _, _, _.
    split; [apply (Select_run _ _ _ _ Hthis)|].
    split; [apply (Select_run _ _ _ _ (lookup_fresh _ _))|].
    rewrite lookup_fresh. f_equal. unfold array_map. rewrite map_map.
    apply map_ext. now intros [v|].
  - eexists _, _, _, _.
    split; [apply (Select_run _ _ _ _ Hthis)|].
    split; [apply (Where_run _ _ _ _ (lookup_fresh _ _))|].
    rewrite lookup_fresh. f_equal. unfold array_filter.
    now rewrite present_array_map.
Qed.

Lemma Where_Select_chains_witness :
  [sample_numbers] !! 0%nat = Some sample_numbers /\
  exists (r1 r2 : ref) (h1 h2 : heap),
    Where (fun v => 1 <? number_or_zero v) 0%nat [sample_numbers] = (Ret r1, h1) /\
    Where (fun v => number_or_zero v <? 3) r1 h1 = (Ret r2, h2) /\
    h2 !! r2 = Some (dense [number 2]).
Proof.
  split; [reflexivity|].
  exact (proj1 (Where_Select_chains [sample_numbers] 0%nat sample_numbers eq_refl)
           (fun v => 1 <? number_or_zero v) (fun v => number_or_zero v <? 3)).
Defined.

Lemma First_run (predicate : option (value -> bool)) (h : heap) (this : ref) (a : array) :
  h !! this = Some a ->
  First predicate this h
  = (if is_undefined (default undefined (head (matching predicate a)))
     then Throw InvalidOperationException
     else Ret (default undefined (head (matching predicate a))), h).
Proof.
  intros Hthis. unfold First, mbind, M_bind. rewrite (FirstOrDefault_run _ _ _ _ Hthis).
  now destruct (is_undefined _).
Qed.

(** On a receiver without empty slots, [Where(p)] followed by [First()] has
    the outcome of [First(p)]: the same element, or the same exception. *)
Theorem Where_then_First (p : value -> bool) (h : heap) (this : ref) (vs : list value) :
  h !! this = Some (dense vs) ->
  exists (r1 : ref) (h1 : heap),
    Where p this h = (Ret r1, h1) /\
    fst (First None r1 h1) = fst (First (Some p) this h).
Proof.
  intros Hthis. eexists _, _. split; [apply (Where_run _ _ _ _ Hthis)|].
  rewrite (First_run _ _ _ _ (lookup_fresh _ _)), (First_run _ _ _ _ Hthis).
  unfold matching, array_filter. now rewrite present_dense, !iterate_dense.
Qed.

Lemma Where_then_First_witness :
  [sample_numbers] !! 0%nat = Some (dense [number 3; number 1; number 2]) /\
  exists (r1 : ref) (h1 : heap),
    Where (fun v => number_or_zero v <? 3) 0%nat [sample_numbers] = (Ret r1, h1) /\
    fst (First None r1 h1) = fst (First (Some (fun v => number_or_zero v <? 3)) 0%nat
                                  [sample_numbers]).
Proof.
  split; [reflexivity|].
  exact (Where_then_First (fun v => number_or_zero v <? 3) [sample_numbers] 0%nat
           [number 3; number 1; number 2] eq_refl).
Defined.

Lemma existsb_filter_length {A : Type} (p : A -> bool) (l : list A) :
  existsb p l = (0 <? Z.of_nat (length (List.filter p l))).
Proof.
  induction l as [|x l IH]; simpl; [reflexivity|].
  destruct (p x); simpl; [|exact IH]. symmetry. apply Z.ltb_lt. lia.
Qed.

(** [Any(p)] is true exactly when [Where(p)] has elements, and [Any()]
    exactly when [Count()] is positive.  An array of empty slots only shows
    the difference: [Any()] is true of it and [Any(p)] false for every [p]. *)
Theorem Any_Where_Count (h : heap) (this : ref) (a : array) :
  h !! this = Some a ->
  (forall p, exists (r1 : ref) (h1 : heap) (n : Z),
     Where p this h = (Ret r1, h1) /\
     Count r1 h1 = (Ret n, h1) /\
     Any (Some p) this h = (Ret (0 <? n), h)) /\
  (exists n : Z, Count this h = (Ret n, h) /\ Any None this h = (Ret (0 <? n), h)) /\
  (present a = [] -> forall p, Any (Some p) this h = (Ret false, h)).
Proof.
  intros Hthis. repeat apply conj.
  - intros p. eexists _, _, _. split; [apply (Where_run _ _ _ _ Hthis)|]. split.
    + unfold Count. now rewrite (bind_load _ _ _ _ (lookup_fresh _ _)).
    + unfold Any. rewrite (bind_load _ _ _ _ Hthis). unfold mret, M_ret. do 2 f_equal.
      unfold array_some, array_filter, dense. rewrite length_map.
      apply existsb_filter_length.
  - eexists. split.
    + unfold Count. now rewrite (bind_load _ _ _ _ Hthis).
    + unfold Any. now rewrite (bind_load _ _ _ _ Hthis).
  - intros Hempty p. unfold Any. rewrite (bind_load _ _ _ _ Hthis).
    unfold array_some. now rewrite Hempty.
Qed.

Lemma Any_Where_Count_witness :
  [two_empty_slots] !! 0%nat = Some two_empty_slots /\
  (exists n : Z, Count 0%nat [two_empty_slots] = (Ret n, [two_empty_slots]) /\
                 Any None 0%nat [two_empty_slots] = (Ret (0 <? n), [two_empty_slots])) /\
  (present two_empty_slots = [] ->
   forall p, Any (Some p) 0%nat [two_empty_slots] = (Ret false, [two_empty_slots])).
Proof.
  split; [reflexivity|].
  exact (proj2 (Any_Where_Count [two_empty_slots] 0%nat two_empty_slots eq_refl)).
Defined.

(** ** What the mutating methods leave alone *)

Lemma store_other {A : Type} (f : array -> array) (ret : A) (h : heap) (this r : ref) :
  r <> this ->
  snd ((load this ≫= fun a => store this (f a) ≫= fun _ => mret ret) h) !! r = h !! r /\
  length (snd ((load this ≫= fun a => store this (f a) ≫= fun _ => mret ret) h)) = length h.
Proof.
  intros Hr. destruct (h !! this) as [a|] eqn:Hthis.
  - rewrite (bind_load _ _ _ _ Hthis). simpl. split.
    + apply list_lookup_insert_ne. congruence.
    + apply length_insert.
  - now rewrite (load_dangling _ _ _ Hthis).
Qed.

Lemma store_other_unit (f : array -> array) (h : heap) (this r : ref) :
  r <> this ->
  snd ((load this ≫= fun a => store this (f a)) h) !! r = h !! r /\
  length (snd ((load this ≫= fun a => store this (f a)) h)) = length h.
Proof.
  intros Hr. destruct (h !! this) as [a|] eqn:Hthis.
  - rewrite (bind_load _ _ _ _ Hthis). simpl. split.
    + apply list_lookup_insert_ne. congruence.
    + apply length_insert.
  - now rewrite (load_dangling _ _ _ Hthis).
Qed.

(** [Add], [AddRange], [OrderBy] and [OrderByDescending] change no array but
    their receiver and create none: every other array of the store, the
    argument of [AddRange] among them, holds what it held. *)
Theorem mutators_change_only_receiver {host : Host} (h : heap) (this r : ref) :
  r <> this ->
  (forall item,
     snd (Add item this h) !! r = h !! r /\ length (snd (Add item this h)) = length h) /\
  (forall arr,
     snd (AddRange arr this h) !! r = h !! r /\
     length (snd (AddRange arr this h)) = length h) /\
  (forall (K : Type) (G : Greater K) (k : value -> K),
     snd (OrderBy k this h) !! r = h !! r /\ length (snd (OrderBy k this h)) = length h) /\
  (forall (K : Type) (G : Greater K) (k : value -> K),
     snd (OrderByDescending k this h) !! r = h !! r /\
     length (snd (OrderByDescending k this h)) = length h).
Proof.
  intros Hr. repeat apply conj; intros.
  - unfold Add. now apply store_other_unit.
  - unfold AddRange. destruct (h !! arr) as [items|] eqn:Harr.
    + rewrite (bind_load _ _ _ _ Harr).
      destruct (spread push_limit items) as [args|e].
      * rewrite bind_lift_Ret. now apply store_other_unit.
      * now rewrite bind_lift_Throw.
    + now rewrite (load_dangling _ _ _ Harr).
  - unfold OrderBy. now apply store_other.
  - unfold OrderByDescending. now apply store_other.
Qed.

Lemma mutators_change_only_receiver_witness :
  1%nat <> 0%nat /\
  snd (Add (number 7) 0%nat [sample_numbers; two_empty_slots]) !! 1%nat
    = [sample_numbers; two_empty_slots] !! 1%nat.
Proof.
  assert (Hr : 1%nat <> 0%nat) by discriminate.
  split; [exact Hr|].
  exact (proj1 (proj1 (mutators_change_only_receiver (host := sample_host)
                         [sample_numbers; two_empty_slots] 0%nat 1%nat Hr) (number 7))).
Defined.

(** ** Copies are independent, the result of [OrderBy] is not *)

(** The array [ToArray] returns is a snapshot: whatever is later added to the
    receiver, and however the receiver is later sorted, the snapshot holds
    the elements the receiver had; and adding to the snapshot does not change
    the receiver. *)
Theorem ToArray_snapshot {host : Host} (h : heap) (this : ref) (a : array) :
  h !! this = Some a ->
  exists (copy : ref) (h1 : heap),
    ToArray this h = (Ret copy, h1) /\
    h1 !! copy = Some (dense (iterate a)) /\
    (forall item, snd (Add item this h1) !! copy = Some (dense (iterate a))) /\
    (forall arr, snd (AddRange arr this h1) !! copy = Some (dense (iterate a))) /\
    (forall (K : Type) (G : Greater K) (k : value -> K),
       snd (OrderBy k this h1) !! copy = Some (dense (iterate a))) /\
    (forall (K : Type) (G : Greater K) (k : value -> K),
       snd (OrderByDescending k this h1) !! copy = Some (dense (iterate a))) /\
    (forall item, snd (Add item copy h1) !! this = Some a).
Proof.
  intros Hthis.
  assert (Hne : length h <> this) by (apply lookup_lt_Some in Hthis; lia).
  exists (length h), (h ++ [dense (iterate a)]).
  split; [unfold ToArray; now rewrite (bind_load _ _ _ _ Hthis)|].
  split; [apply lookup_fresh|].
  repeat apply conj; intros.
  - unfold Add. rewrite (proj1 (store_other_unit _ _ _ _ Hne)). apply lookup_fresh.
  - unfold AddRange. destruct ((h ++ [dense (iterate a)]) !! arr) as [items|] eqn:Harr.
    + rewrite (bind_load _ _ _ _ Harr).
      destruct (spread push_limit items) as [args|e].
      * rewrite bind_lift_Ret, (proj1 (store_other_unit _ _ _ _ Hne)).
        apply lookup_fresh.
      * rewrite bind_lift_Throw. apply lookup_fresh.
    + rewrite (load_dangling _ _ _ Harr). apply lookup_fresh.
  - unfold OrderBy. rewrite (proj1 (store_other _ _ _ _ _ Hne)). apply lookup_fresh.
  - unfold OrderByDescending. rewrite (proj1 (store_other _ _ _ _ _ Hne)). apply lookup_fresh.
  - unfold Add. rewrite (proj1 (store_other_unit _ _ _ _ (not_eq_sym Hne))).
    now apply lookup_old.
Qed.

Lemma ToArray_snapshot_witness :
  [sample_numbers] !! 0%nat = Some sample_numbers /\
  exists (copy : ref) (h1 : heap),
    ToArray 0%nat [sample_numbers] = (Ret copy, h1) /\
    h1 !! copy = Some sample_numbers /\
    (forall item, snd (Add item 0%nat h1) !! copy = Some sample_numbers).
Proof.
  split; [reflexivity|].
  destruct (ToArray_snapshot (host := sample_host) [sample_numbers] 0%nat sample_numbers
              eq_refl)
    as (copy & h1 & Hrun & Hcopy & Hadd & _).
  exists copy, h1. split; [exact Hrun|]. split; [exact Hcopy | exact Hadd].
Defined.




(** ** [OrderBy] before [First], and the two orders against each other *)

Lemma filter_all {A : Type} (p : A -> bool) (l : list A) :
  Forall (fun x => p x = true) l -> List.filter p l = l.
Proof.
  induction 1 as [|x l Hx _ IH]; simpl; [reflexivity|]. now rewrite Hx, IH.
Qed.

Lemma array_sort_dense (comparator : value -> value -> Z) (vs : list value) :
  Forall (fun v => is_undefined v = false) vs ->
  array_sort comparator (dense vs) = dense (sort_with comparator vs).
Proof.
  intros Hvs. unfold array_sort. cbv zeta.
  rewrite present_dense, holes_dense, (filter_none _ _ Hvs), filter_all.
  - simpl. now rewrite app_nil_r.
  - eapply Forall_impl; [exact Hvs|]. intros v Hv. simpl. now rewrite Hv.
Qed.

Lemma sort_then_First (comparator : value -> value -> Z) (R : value -> value -> Prop)
    (h : heap) (this : ref) (vs : list value) :
  (forall x y, (0 <? comparator x y) = false -> R x y) ->
  (forall x y, (0 <? comparator x y) = true -> R y x) ->
  (forall x y z, R x y -> R y z -> R x z) ->
  (forall x, R x x) ->
  (this < length h)%nat ->
  vs <> [] ->
  Forall (fun v => is_undefined v = false) vs ->
  exists x : value,
    First None this (<[this := array_sort comparator (dense vs)]> h)
      = (Ret x, <[this := array_sort comparator (dense vs)]> h) /\
    In x vs /\
    Forall (R x) vs.
Proof.
  intros Hstops Hpasses Htrans Hrefl Hlt Hne Hvs.
  rewrite (array_sort_dense _ _ Hvs).
  pose proof (sort_with_perm comparator vs) as Hperm.
  pose proof (sort_with_sorted comparator R Hstops Hpasses Htrans vs) as Hsorted.
  destruct (sort_with comparator vs) as [|x rest].
  - apply Permutation_sym, Permutation_nil in Hperm. contradiction.
  - assert (Hx : In x vs) by (apply (Permutation_in _ (Permutation_sym Hperm)); now left).
    exists x. split; [|split; [exact Hx|]].
    + rewrite (First_run None _ this (dense (x :: rest)))
        by (now apply list_lookup_insert_eq).
      simpl. rewrite List.Forall_forall in Hvs. now rewrite (Hvs x Hx).
    + apply (Permutation_Forall (Permutation_sym Hperm)).
      apply StronglySorted_inv in Hsorted as [_ Hrest]. constructor; [apply Hrefl | exact Hrest].
Qed.

Lemma greater_irrefl {K : Type} `{TotalGreater K} (a : K) : greater a a = false.
Proof.
  destruct (greater a a) eqn:Ha; [|reflexivity].
  pose proof (greater_asym a a Ha) as Hb. congruence.
Qed.

(** On a non-empty receiver without empty slots and without [undefined], and
    for keys that [>] orders totally: [First()] after [OrderBy] returns an
    element of the receiver than whose key no key is smaller, and [First()]
    after [OrderByDescending] an element than whose key no key is greater. *)
Theorem OrderBy_then_First {K : Type} `{TotalGreater K} (k : value -> K)
    (h : heap) (this : ref) (vs : list value) :
  h !! this = Some (dense vs) ->
  vs <> [] ->
  Forall (fun v => is_undefined v = false) vs ->
  (exists (r : ref) (h1 : heap) (x : value),
     OrderBy k this h = (Ret r, h1) /\
     First None r h1 = (Ret x, h1) /\
     In x vs /\
     Forall (fun y => greater (k x) (k y) = false) vs) /\
  (exists (r : ref) (h1 : heap) (x : value),
     OrderByDescending k this h = (Ret r, h1) /\
     First None r h1 = (Ret x, h1) /\
     In x vs /\
     Forall (fun y => greater (k y) (k x) = false) vs).
Proof.
  intros Hthis Hne Hvs.
  assert (Hlt : (this < length h)%nat) by now apply lookup_lt_Some in Hthis.
  split.
  - destruct (sort_then_First
                (fun a b => if greater (k a) (k b) then 1 else -1)
                (fun x y => greater (k x) (k y) = false) h this vs)
      as (x & Hfirst & Hx & Hleast); try assumption.
    + intros x y. now destruct (greater (k x) (k y)).
    + intros x y. destruct (greater (k x) (k y)) eqn:Hxy; [|discriminate].
      intros _. now apply greater_asym.
    + intros x y z. apply greater_negtrans.
    + intros x. apply greater_irrefl.
    + eexists _, _, x. split; [|split; [exact Hfirst|split; assumption]].
      exact (proj1 (store_receiver _ this h this (dense vs) Hthis)).
  - destruct (sort_then_First
                (fun a b => if greater (k a) (k b) then -1 else 1)
                (fun x y => greater (k y) (k x) = false) h this vs)
      as (x & Hfirst & Hx & Hleast); try assumption.
    + intros x y. destruct (greater (k x) (k y)) eqn:Hxy; [|discriminate].
      intros _. now apply greater_asym.
    + intros x y. now destruct (greater (k x) (k y)).
    + intros x y z Hxy Hyz. now apply greater_negtrans with (k y).
    + intros x. apply greater_irrefl.
    + eexists _, _, x. split; [|split; [exact Hfirst|split; assumption]].
      exact (proj1 (store_receiver _ this h this (dense vs) Hthis)).
Qed.

Lemma OrderBy_then_First_witness :
  [sample_numbers] !! 0%nat = Some (dense [number 3; number 1; number 2]) /\
  [number 3; number 1; number 2] <> [] /\
  Forall (fun v => is_undefined v = false) [number 3; number 1; number 2] /\
  exists (r : ref) (h1 : heap) (x : value),
    OrderBy number_or_zero 0%nat [sample_numbers] = (Ret r, h1) /\
    First None r h1 = (Ret x, h1) /\
    In x [number 3; number 1; number 2] /\
    Forall (fun y => greater (number_or_zero x) (number_or_zero y) = false)
      [number 3; number 1; number 2].
Proof.
  assert (Hne : [number 3; number 1; number 2] <> []) by discriminate.
  assert (Hvs : Forall (fun v => is_undefined v = false) [number 3; number 1; number 2])
    by (repeat constructor).
  split; [reflexivity|]. split; [exact Hne|]. split; [exact Hvs|].
  exact (proj1 (OrderBy_then_First number_or_zero [sample_numbers] 0%nat
                  [number 3; number 1; number 2] eq_refl Hne Hvs)).
Defined.

Lemma StronglySorted_snoc {A : Type} (R : A -> A -> Prop) (l : list A) (x : A) :
  StronglySorted R l -> Forall (fun y => R y x) l -> StronglySorted R (l ++ [x]).
Proof.
  induction 1 as [|y l Hl IH Hy]; intros Hx; simpl.
  - repeat constructor.
  - apply Forall_cons_1 in Hx as [Hyx Hx]. constructor; [now apply IH|].
    apply Forall_app. split; [exact Hy | now constructor].
Qed.

Lemma StronglySorted_rev {A : Type} (R : A -> A -> Prop) (l : list A) :
  StronglySorted R l -> StronglySorted (fun x y => R y x) (rev l).
Proof.
  induction 1 as [|x l Hl IH Hx]; simpl; [constructor|].
  apply StronglySorted_snoc; [exact IH|].
  apply List.Forall_forall. intros y Hy. apply in_rev in Hy.
  rewrite List.Forall_forall in Hx. now apply Hx.
Qed.

(** When the receiver has no empty slot and no [undefined] and [>] tells the
    keys of any two of its elements apart, [OrderByDescending] leaves the
    receiver in the reverse of the order [OrderBy] leaves it in. *)
Theorem OrderByDescending_reverses {K : Type} `{TotalGreater K} (k : value -> K)
    (h : heap) (this : ref) (vs : list value) :
  h !! this = Some (dense vs) ->
  Forall (fun v => is_undefined v = false) vs ->
  (forall x y, In x vs -> In y vs ->
     greater (k x) (k y) = false -> greater (k y) (k x) = false -> x = y) ->
  exists sorted : list value,
    OrderBy k this h = (Ret this, <[this := dense sorted]> h) /\
    OrderByDescending k this h = (Ret this, <[this := dense (rev sorted)]> h).
Proof.
  intros Hthis Hvs Hanti.
  exists (sort_with (fun a b => if greater (k a) (k b) then 1 else -1) vs).
  split.
  - rewrite <- (array_sort_dense _ _ Hvs).
    exact (proj1 (store_receiver _ this h this (dense vs) Hthis)).
  - replace (rev (sort_with (fun a b => if greater (k a) (k b) then 1 else -1) vs))
      with (sort_with (fun a b => if greater (k a) (k b) then -1 else 1) vs).
    + rewrite <- (array_sort_dense _ _ Hvs).
      exact (proj1 (store_receiver _ this h this (dense vs) Hthis)).
    + apply (sorted_permutation_unique (fun x y => greater (k y) (k x) = false)).
      * intros x y Hx Hy Hxy Hyx.
        apply Hanti; try assumption;
          eapply Permutation_in; try eassumption; symmetry; apply sort_with_perm.
      * apply sort_with_sorted.
        -- intros x y. destruct (greater (k x) (k y)) eqn:Hxy; [|discriminate].
           intros _. now apply greater_asym.
        -- intros x y. now destruct (greater (k x) (k y)).
        -- intros x y z Hxy Hyz. now apply greater_negtrans with (k y).
      * apply (StronglySorted_rev (fun x y => greater (k x) (k y) = false)).
        apply sort_with_sorted.
        -- intros x y. now destruct (greater (k x) (k y)).
        -- intros x y. destruct (greater (k x) (k y)) eqn:Hxy; [|discriminate].
           intros _. now apply greater_asym.
        -- intros x y z. apply greater_negtrans.
      * rewrite <- Permutation_rev, <- !sort_with_perm. reflexivity.
Qed.

Lemma OrderByDescending_reverses_witness :
  [sample_numbers] !! 0%nat = Some (dense [number 3; number 1; number 2]) /\
  Forall (fun v => is_undefined v = false) [number 3; number 1; number 2] /\
  exists sorted : list value,
    OrderBy number_or_zero 0%nat [sample_numbers]
      = (Ret 0%nat, <[0%nat := dense sorted]> [sample_numbers]) /\
    OrderByDescending number_or_zero 0%nat [sample_numbers]
      = (Ret 0%nat, <[0%nat := dense (rev sorted)]> [sample_numbers]).
Proof.
  assert (Hvs : Forall (fun v => is_undefined v = false) [number 3; number 1; number 2])
    by (repeat constructor).
  split; [reflexivity|]. split; [exact Hvs|].
  apply (OrderByDescending_reverses number_or_zero [sample_numbers] 0%nat
           [number 3; number 1; number 2] eq_refl Hvs).
  intros x y Hx Hy.
  assert (Hnum : forall v, In v [number 3; number 1; number 2] ->
                   v = number (number_or_zero v)).
  { intros v [<-|[<-|[<-|[]]]]; reflexivity. }
  unfold greater, number_greater. rewrite !Z.gtb_ltb.
  intros Hxy%Z.ltb_ge Hyx%Z.ltb_ge.
  rewrite (Hnum x Hx), (Hnum y Hy). f_equal. lia.
Defined.

(** ** [Distinct] twice *)

Lemma first_occurrences_idempotent (l : list value) :
  first_occurrences same_value_zero (first_occurrences same_value_zero l)
  = first_occurrences same_value_zero l.
Proof.
  apply first_occurrences_after_id.
  - apply same_value_zero_sym.
  - apply List.Forall_forall. reflexivity.
  - apply first_occurrences_after_distinct, same_value_zero_sym.
Qed.

Lemma sublist_length_le {A : Type} (l1 l2 : list A) :
  sublist l1 l2 -> (length l1 <= length l2)%nat.
Proof. induction 1; simpl; lia. Qed.

(** Unless the distinct values are a single number, or more than the
    constructor takes arguments (the limit of the host), [Distinct] has no
    more elements than its receiver, and [Distinct] of the result is a further
    new sequence with the same elements: nothing is left to remove. *)
Theorem Distinct_idempotent {host : Host} (h : heap) (this : ref) (a : array) :
  h !! this = Some a ->
  lone_number (first_occurrences same_value_zero (iterate a)) = false ->
  (length (first_occurrences same_value_zero (iterate a)) <= construct_limit)%nat ->
  exists (r1 r2 : ref) (h1 h2 : heap) (d : array),
    Distinct this h = (Ret r1, h1) /\
    Distinct r1 h1 = (Ret r2, h2) /\
    r1 <> r2 /\
    h2 !! r1 = Some d /\
    h2 !! r2 = Some d /\
    (length d <= length a)%nat.
Proof.
  intros Hthis Hlone Hlen.
  pose proof (new_Set_first_occurrences (iterate a)) as Hset.
  assert (Hlone1 : lone_number (new_Set (iterate a)) = false) by now rewrite Hset.
  assert (Hlen1 : (length (new_Set (iterate a)) <= construct_limit)%nat)
    by now rewrite Hset.
  assert (Hr1 : ((h ++ [dense (new_Set (iterate a))]) ++ [dense (new_Set (iterate a))])
                  !! S (length h) = Some (dense (new_Set (iterate a)))).
  { replace (S (length h)) with (length (h ++ [dense (new_Set (iterate a))]))
      by (rewrite length_app; simpl; lia).
    apply lookup_fresh. }
  assert (Hagain : new_Set (iterate (dense (new_Set (iterate a)))) = new_Set (iterate a)).
  { rewrite iterate_dense, Hset, new_Set_first_occurrences.
    apply first_occurrences_idempotent. }
  eexists _, _, _, _, (dense (new_Set (iterate a))).
  split; [apply (Distinct_run _ _ _ Hthis Hlen1 Hlone1)|].
  split; [apply (Distinct_run _ _ _ Hr1); now rewrite Hagain|].
  rewrite Hagain.
  split; [rewrite !length_app; simpl; lia|].
  split; [rewrite <- !app_assoc; rewrite !app_assoc; do 2 apply lookup_old; exact Hr1|].
  split.
  - match goal with |- ?l !! _ = _ => replace l with
      ((((h ++ [dense (new_Set (iterate a))]) ++ [dense (new_Set (iterate a))])
          ++ [dense (new_Set (iterate a))]) ++ [dense (new_Set (iterate a))]) by reflexivity end.
    replace (S (length ((h ++ [dense (new_Set (iterate a))])
                          ++ [dense (new_Set (iterate a))])))
      with (length ((((h ++ [dense (new_Set (iterate a))])
                        ++ [dense (new_Set (iterate a))])
                       ++ [dense (new_Set (iterate a))])))
      by (rewrite !length_app; simpl; lia).
    apply lookup_fresh.
  - unfold dense. rewrite length_map, Hset.
    etransitivity; [apply sublist_length_le, first_occurrences_after_sublist|].
    unfold iterate. now rewrite length_map.
Qed.

Lemma Distinct_idempotent_witness :
  [sample_numbers] !! 0%nat = Some sample_numbers /\
  lone_number (first_occurrences same_value_zero (iterate sample_numbers)) = false /\
  (length (first_occurrences same_value_zero (iterate sample_numbers))
   <= @construct_limit sample_host)%nat /\
  exists (r1 r2 : ref) (h1 h2 : heap) (d : array),
    Distinct (host := sample_host) 0%nat [sample_numbers] = (Ret r1, h1) /\
    Distinct (host := sample_host) r1 h1 = (Ret r2, h2) /\
    r1 <> r2 /\
    h2 !! r1 = Some d /\
    h2 !! r2 = Some d /\
    (length d <= length sample_numbers)%nat.
Proof.
  assert (Hlen : (length (first_occurrences same_value_zero (iterate sample_numbers))
                  <= @construct_limit sample_host)%nat) by (vm_compute; lia).
  split; [reflexivity|]. split; [reflexivity|]. split; [exact Hlen|].
  exact (Distinct_idempotent (host := sample_host) [sample_numbers] 0%nat sample_numbers
           eq_refl eq_refl Hlen).
Defined.

(** ** The empty receiver *)

Lemma array_slice_nil (start fin : Z) : array_slice start fin [] = [].
Proof. unfold array_slice. cbv zeta. now rewrite skipn_nil, firstn_nil. Qed.

Lemma array_sort_nil (comparator : value -> value -> Z) : array_sort comparator [] = [].
Proof. reflexivity. Qed.

(** On an empty receiver: [First] throws whatever the predicate,
    [FirstOrDefault] returns [undefined], [Any] is false and [Count] is 0;
    [GroupBy] returns an object without keys; every method that produces a
    sequence returns a new empty one, [Distinct] and [DistinctBy] included;
    and [OrderBy] and [OrderByDescending] return the receiver, still
    empty, the store being as it was. *)
Theorem empty_receiver {host : Host} (h : heap) (this : ref) :
  h !! this = Some [] ->
  (forall p, First p this h = (Throw InvalidOperationException, h)) /\
  (forall p, FirstOrDefault p this h = (Ret undefined, h)) /\
  (forall p, Any p this h = (Ret false, h)) /\
  Count this h = (Ret 0, h) /\
  (forall k, GroupBy k this h = (Ret [], h)) /\
  (forall f, Select f this h = (Ret (length h), h ++ [[]])) /\
  (forall p, Where p this h = (Ret (length h), h ++ [[]])) /\
  (forall f, SelectMany f this h = (Ret (length h), h ++ [[]])) /\
  (forall n, Take n this h = (Ret (length h), h ++ [[]])) /\
  (forall n, Skip n this h = (Ret (length h), h ++ [[]])) /\
  ToArray this h = (Ret (length h), h ++ [[]]) /\
  Distinct this h = (Ret (S (length h)), (h ++ [[]]) ++ [[]]) /\
  (forall k, DistinctBy k this h = (Ret (S (length h)), (h ++ [[]]) ++ [[]])) /\
  (forall (K : Type) (G : Greater K) (k : value -> K),
     OrderBy k this h = (Ret this, h) /\ OrderByDescending k this h = (Ret this, h)).
Proof.
  intros Hthis.
  assert (Hcopy : AsLinq (length h) (h ++ [[]]) = (Ret (S (length h)), (h ++ [[]]) ++ [[]])).
  { rewrite (AsLinq_run _ _ [] (lookup_fresh _ _) (Nat.le_0_l _) eq_refl).
    rewrite length_app. simpl. do 2 f_equal. lia. }
  repeat apply conj; intros.
  - rewrite (First_run _ _ _ _ Hthis). now destruct p.
  - rewrite (FirstOrDefault_run _ _ _ _ Hthis). now destruct p.
  - unfold Any. rewrite (bind_load _ _ _ _ Hthis). now destruct p.
  - unfold Count. now rewrite (bind_load _ _ _ _ Hthis).
  - now rewrite (GroupBy_run _ _ _ _ Hthis).
  - now rewrite (Select_run _ _ _ _ Hthis).
  - now rewrite (Where_run _ _ _ _ Hthis).
  - unfold SelectMany. now rewrite (bind_load _ _ _ _ Hthis).
  - now rewrite (Take_run _ _ _ _ Hthis), array_slice_nil.
  - now rewrite (Skip_run _ _ _ _ Hthis), array_slice_nil.
  - unfold ToArray. now rewrite (bind_load _ _ _ _ Hthis).
  - unfold Distinct. rewrite (bind_load _ _ _ _ Hthis), bind_alloc. exact Hcopy.
  - unfold DistinctBy. rewrite (bind_load _ _ _ _ Hthis).
    change (new_Map (array_map (fun i => (k i, i)) [])) with (@Ret (list (value * value)) []).
    rewrite bind_lift_Ret, bind_alloc. exact Hcopy.
  - split.
    + unfold OrderBy. rewrite (bind_load _ _ _ _ Hthis), array_sort_nil.
      unfold mbind, M_bind, store, mret, M_ret. f_equal. now apply list_insert_id.
    + unfold OrderByDescending. rewrite (bind_load _ _ _ _ Hthis), array_sort_nil.
      unfold mbind, M_bind, store, mret, M_ret. f_equal. now apply list_insert_id.
Qed.

Lemma empty_receiver_witness :
  [[]] !! 0%nat = Some (@nil slot) /\
  (forall p, First p 0%nat [[]] = (Throw InvalidOperationException, [[]])) /\
  Distinct (host := sample_host) 0%nat [[]] = (Ret 2%nat, [[]; []; []]).
Proof.
  split; [reflexivity|].
  pose proof (empty_receiver (host := sample_host) [[]] 0%nat eq_refl) as Hempty.
  split; [exact (proj1 Hempty)|].
  exact (proj1 (proj2 (proj2 (proj2 (proj2 (proj2 (proj2 (proj2 (proj2 (proj2 (proj2
           (proj2 Hempty)))))))))))).
Defined.

(** ** Appending and reading back; copying and copying back *)

Lemma length_iterate (a : array) : length (dense (iterate a)) = length a.
Proof. unfold dense, iterate. now rewrite !length_map. Qed.

(** After [AddRange] of no more items than [push] takes arguments (the limit
    of the host), the receiver staying within the greatest length of an array,
    [Count] has grown by the length of the argument, [Take] of the old count
    returns what the receiver held, and [Skip] of the old count returns the
    items appended, an empty slot of the argument having become [undefined].
    (The argument may be the receiver itself, which is then doubled.) *)
Theorem AddRange_then_read {host : Host} (h : heap) (this arr : ref) (a items : array) :
  h !! this = Some a ->
  h !! arr = Some items ->
  (length items <= push_limit)%nat ->
  Z.of_nat (length a) + Z.of_nat (length items) <= max_length ->
  exists h1 : heap,
    AddRange arr this h = (Ret tt, h1) /\
    Count this h1 = (Ret (Z.of_nat (length a) + Z.of_nat (length items)), h1) /\
    (exists (r : ref) (h2 : heap),
       Take (Z.of_nat (length a)) this h1 = (Ret r, h2) /\ h2 !! r = Some a) /\
    (exists (r : ref) (h2 : heap),
       Skip (Z.of_nat (length a)) this h1 = (Ret r, h2) /\
       h2 !! r = Some (dense (iterate items))).
Proof.
  intros Hthis Harr Hitems _.
  assert (Hlt : (this < length h)%nat) by now apply lookup_lt_Some in Hthis.
  exists (<[this := a ++ dense (iterate items)]> h).
  assert (Hget : <[this := a ++ dense (iterate items)]> h !! this
                 = Some (a ++ dense (iterate items)))
    by now apply list_lookup_insert_eq.
  split; [|split; [|split]].
  - unfold AddRange. rewrite (bind_load _ _ _ _ Harr).
    rewrite (spread_within _ _ Hitems), bind_lift_Ret.
    now rewrite (bind_load _ _ _ _ Hthis).
  - unfold Count. rewrite (bind_load _ _ _ _ Hget). unfold mret, M_ret. do 2 f_equal.
    rewrite length_app, length_iterate. lia.
  - eexists _, _. split; [apply (Take_run _ _ _ _ Hget)|].
    rewrite lookup_fresh. f_equal. rewrite slice_take by lia.
    rewrite Nat2Z.id. rewrite firstn_app, Nat.sub_diag, firstn_all. simpl.
    apply app_nil_r.
  - eexists _, _. split; [apply (Skip_run _ _ _ _ Hget)|].
    rewrite lookup_fresh. f_equal. rewrite slice_drop by lia.
    rewrite Nat2Z.id. rewrite skipn_app, Nat.sub_diag, skipn_all. reflexivity.
Qed.

Lemma AddRange_then_read_witness :
  [sample_numbers] !! 0%nat = Some sample_numbers /\
  (length sample_numbers <= @push_limit sample_host)%nat /\
  Z.of_nat (length sample_numbers) + Z.of_nat (length sample_numbers) <= max_length /\
  exists h1 : heap,
    AddRange (host := sample_host) 0%nat 0%nat [sample_numbers] = (Ret tt, h1) /\
    Count 0%nat h1 = (Ret (Z.of_nat (length sample_numbers)
                            + Z.of_nat (length sample_numbers)), h1).
Proof.
  assert (Hitems : (length sample_numbers <= @push_limit sample_host)%nat)
    by (vm_compute; lia).
  assert (Hall : Z.of_nat (length sample_numbers) + Z.of_nat (length sample_numbers)
                 <= max_length)
    by (vm_compute; discriminate).
  split; [reflexivity|]. split; [exact Hitems|]. split; [exact Hall|].
  destruct (AddRange_then_read (host := sample_host) [sample_numbers] 0%nat 0%nat
              sample_numbers sample_numbers eq_refl eq_refl Hitems Hall)
    as (h1 & Hrun & Hcount & _).
  exists h1. split; [exact Hrun | exact Hcount].
Defined.

(** [ToArray] of [AsLinq] gives back the elements of the source: for a source
    without empty slots that is not a single number and has no more elements
    than the constructor takes arguments (the limit of the host), the two
    calls create two new arrays, each with the elements of the source, and
    leave the source as it was. *)
Theorem AsLinq_then_ToArray {host : Host} (h : heap) (arr : ref) (vs : list value) :
  h !! arr = Some (dense vs) ->
  lone_number vs = false ->
  (length vs <= construct_limit)%nat ->
  exists (r1 r2 : ref) (h1 h2 : heap),
    AsLinq arr h = (Ret r1, h1) /\
    ToArray r1 h1 = (Ret r2, h2) /\
    r1 <> arr /\ r2 <> arr /\ r1 <> r2 /\
    h2 !! r1 = Some (dense vs) /\
    h2 !! r2 = Some (dense vs) /\
    h2 !! arr = Some (dense vs).
Proof.
  intros Harr Hlone Hlen.
  assert (Hlt : (arr < length h)%nat) by now apply lookup_lt_Some in Harr.
  exists (length h), (length (h ++ [dense vs])), (h ++ [dense vs]), ((h ++ [dense vs]) ++ [dense vs]).
  split.
  { rewrite (AsLinq_run _ _ _ Harr);
      [now rewrite iterate_dense | now rewrite length_dense | now rewrite iterate_dense]. }
  split.
  { unfold ToArray. rewrite (bind_load _ _ _ _ (lookup_fresh _ _)). now rewrite iterate_dense. }
  rewrite length_app. simpl.
  repeat apply conj; try lia.
  - apply lookup_old, lookup_fresh.
  - replace (length h + 1)%nat with (length (h ++ [dense vs]))
      by (rewrite length_app; simpl; lia).
    apply lookup_fresh.
  - rewrite <- app_assoc. now apply lookup_old.
Qed.

Lemma AsLinq_then_ToArray_witness :
  [sample_numbers] !! 0%nat = Some (dense [number 3; number 1; number 2]) /\
  lone_number [number 3; number 1; number 2] = false /\
  (length [number 3; number 1; number 2] <= @construct_limit sample_host)%nat /\
  exists (r1 r2 : ref) (h1 h2 : heap),
    AsLinq (host := sample_host) 0%nat [sample_numbers] = (Ret r1, h1) /\
    ToArray r1 h1 = (Ret r2, h2) /\
    r1 <> 0%nat /\ r2 <> 0%nat /\ r1 <> r2 /\
    h2 !! r1 = Some (dense [number 3; number 1; number 2]) /\
    h2 !! r2 = Some (dense [number 3; number 1; number 2]) /\
    h2 !! 0%nat = Some (dense [number 3; number 1; number 2]).
Proof.
  assert (Hlen : (length [number 3; number 1; number 2]
                  <= @construct_limit sample_host)%nat) by (vm_compute; lia).
  split; [reflexivity|]. split; [reflexivity|]. split; [exact Hlen|].
  exact (AsLinq_then_ToArray (host := sample_host) [sample_numbers] 0%nat
           [number 3; number 1; number 2] eq_refl eq_refl Hlen).
Defined.
